(** * uthread: a cooperative, priority driven user-level thread library

    Shallow embedding of [uthread.c] and verification of its natural
    language specification.

    The C program keeps its scheduler state in a heap allocated
    [queue_t] (a circular, doubly-linked list of [uthread_t] nodes plus
    the running thread) protected by a semaphore.  The embedding keeps
    the pointers: a node is a heap cell holding its [next] and [prev]
    pointers, and every operation reads and writes cells in the order
    the C statements do.  Dereferencing a null or dangling pointer,
    freeing a block twice, building a context on a null stack and
    signed overflow are undefined in C and are rendered as [Fault]; the
    two unbounded [while] loops take fuel. *)

From Stdlib Require Import ZArith Lia.
From stdpp Require Import base option list gmap.

Open Scope Z_scope.

(** ** Memory model *)

(** Addresses of heap blocks; [None] is the null pointer. *)
Definition loc := positive.
Definition ptr := option loc.

(** Function pointers are opaque code addresses. *)
Definition fn := positive.

(** [typedef struct node { ... } uthread_t;] *)
Record uthread_t := Uthread {
  priority : Z;
  func : fn;
  context : ptr;
  next : ptr;
  prev : ptr
}.

(** [typedef struct queue { ... } queue_t;] *)
Record queue_t := Queue {
  head : ptr;
  size : Z;
  active : ptr
}.

(** What a [ucontext_t] resumes at: the point of the [getcontext] that
    filled it, the entry of the function bound by [makecontext], or the
    inside of the [swapcontext] that saved it. *)
Inductive resume :=
| AtGetcontext
| AtEntry (f : fn)
| InSwapcontext.

(** The part of [ucontext_t] the library touches. *)
Record ucontext_t := Ucontext {
  uc_resume : resume;
  ss_sp : ptr;
  ss_size : Z
}.

Definition STACK_SIZE : Z := 16384.

Definition INT_MAX : Z := 2147483647.
Definition INT_MIN : Z := -2147483648.

(** The process memory the library can reach: the live [uthread_t],
    [ucontext_t] and stack blocks, the block [thread_queue] points to
    ([None] while the pointer is not backed by a live block), and the
    value of the semaphore [lock] ([None] while it is not initialised). *)
Record world := World {
  threads : gmap loc uthread_t;
  contexts : gmap loc ucontext_t;
  stacks : gset loc;
  thread_queue : option queue_t;
  lock : option Z
}.

(** Outcome of running a piece of C code. *)
Inductive result (A : Type) :=
| Ok (a : A)
| Fault        (* undefined behaviour *)
| Timeout      (* a loop ran out of fuel *)
| Blocked.     (* [sem_wait] on a semaphore at zero, with nobody to post *)
Arguments Ok {A} a.
Arguments Fault {A}.
Arguments Timeout {A}.
Arguments Blocked {A}.

#[global] Instance result_bind : MBind result := λ A B k m,
  match m with
  | Ok a => k a
  | Fault => Fault
  | Timeout => Timeout
  | Blocked => Blocked
  end.

Definition ptr_eqb (p q : ptr) : bool := bool_decide (p = q).

(** *** Reading and writing [uthread_t] cells *)

Abbreviation heap := (gmap loc uthread_t).

(** [*p] for a [uthread_t *p]. *)
Definition load (h : heap) (p : ptr) : result uthread_t :=
  match p with
  | None => Fault
  | Some l => match h !! l with Some n => Ok n | None => Fault end
  end.

Definition store (h : heap) (p : ptr) (f : uthread_t → uthread_t) : result heap :=
  match p with
  | None => Fault
  | Some l => match h !! l with Some n => Ok (<[l := f n]> h) | None => Fault end
  end.

Definition with_priority (v : Z) (n : uthread_t) : uthread_t :=
  Uthread v (func n) (context n) (next n) (prev n).
Definition with_func (v : fn) (n : uthread_t) : uthread_t :=
  Uthread (priority n) v (context n) (next n) (prev n).
Definition with_context (v : ptr) (n : uthread_t) : uthread_t :=
  Uthread (priority n) (func n) v (next n) (prev n).
Definition with_next (v : ptr) (n : uthread_t) : uthread_t :=
  Uthread (priority n) (func n) (context n) v (prev n).
Definition with_prev (v : ptr) (n : uthread_t) : uthread_t :=
  Uthread (priority n) (func n) (context n) (next n) v.

(** [p->priority = v], [p->next = v], [p->prev = v]. *)
Definition set_priority (h : heap) (p : ptr) (v : Z) := store h p (with_priority v).
Definition set_next (h : heap) (p : ptr) (v : ptr) := store h p (with_next v).
Definition set_prev (h : heap) (p : ptr) (v : ptr) := store h p (with_prev v).

(** [free(p)]: nothing for a null pointer; a live block is released,
    whatever it holds, a [uthread_t], a [ucontext_t] or a stack;
    undefined for a pointer that is not a live block.  The blocks share
    one address space: an address is live in at most one of the three
    stores of a [world]. *)
Definition free (w : world) (p : ptr) : result world :=
  match p with
  | None => Ok w
  | Some l =>
      match threads w !! l with
      | Some _ =>
          Ok (World (delete l (threads w)) (contexts w) (stacks w) (thread_queue w) (lock w))
      | None =>
          match contexts w !! l with
          | Some _ =>
              Ok (World (threads w) (delete l (contexts w)) (stacks w)
                    (thread_queue w) (lock w))
          | None =>
              if decide (l ∈ stacks w)
              then Ok (World (threads w) (contexts w) (stacks w ∖ {[l]})
                         (thread_queue w) (lock w))
              else Fault
          end
      end
  end.

(** [n++] and [n--] on an [int]. *)
Definition incr (n : Z) : result Z := if bool_decide (n = INT_MAX) then Fault else Ok (n + 1).
Definition decr (n : Z) : result Z := if bool_decide (n = INT_MIN) then Fault else Ok (n - 1).

(** ** Thread queue operations *)

(** [static void add(queue_t **queue, uthread_t *item)] *)
Definition add (q : queue_t) (h : heap) (item : ptr) : result (queue_t * heap) :=
  '(q1, h1) ←
    (if bool_decide (size q = 0) then
       let q1 := Queue item (size q) (active q) in
       h1 ← set_next h item item;
       h2 ← set_prev h1 item item;
       Ok (q1, h2)
     else if bool_decide (size q = 1) then
       h1 ← set_next h item (head q);
       h2 ← set_prev h1 item (head q);
       h3 ← set_next h2 (head q) item;
       h4 ← set_prev h3 (head q) item;
       Ok (q, h4)
     else
       hd ← load h (head q);
       h1 ← set_prev h (next hd) item;
       hd1 ← load h1 (head q);
       h2 ← set_next h1 item (next hd1);
       h3 ← set_prev h2 item (head q);
       h4 ← set_next h3 (head q) item;
       Ok (q, h4));
  sz ← incr (size q1);
  Ok (Queue (head q1) sz (active q1), h1).

(** The scanning [while] loop of [get_priority_thread], which runs until
    [curr->prev] is the head of the queue; the result is [priority_node]
    at loop exit. *)
Fixpoint scan (fuel : nat) (h : heap) (hd curr priority_node : ptr)
    (highest_priority : Z) : result ptr :=
  c ← load h curr;
  if ptr_eqb (prev c) hd then Ok priority_node
  else
    match fuel with
    | O => Timeout
    | S fuel' =>
        let curr := prev c in
        c ← load h curr;
        if bool_decide (priority c < highest_priority)
        then scan fuel' h hd curr curr (priority c)
        else scan fuel' h hd curr priority_node highest_priority
    end.

(** [static uthread_t* get_priority_thread(queue_t **queue)] *)
Definition get_priority_thread (fuel : nat) (q : queue_t) (h : heap)
    : result (ptr * queue_t * heap) :=
  if bool_decide (size q = 0) then Ok (None, q, h)
  else if bool_decide (size q = 1) then
    Ok (head q, Queue None 0 (active q), h)
  else
    let curr := head q in
    c ← load h curr;
    priority_node ← scan fuel h (head q) curr curr (priority c);
    q1 ← (if ptr_eqb priority_node (head q)
          then n ← load h priority_node; Ok (Queue (prev n) (size q) (active q))
          else Ok q);
    n ← load h priority_node;
    h1 ← set_next h (prev n) (next n);
    n ← load h1 priority_node;
    h2 ← set_prev h1 (next n) (prev n);
    sz ← decr (size q1);
    Ok (priority_node, Queue (head q1) sz (active q1), h2).

(** The [while (curr)] loop of [cleanup_queue]. *)
Fixpoint cleanup_walk (fuel : nat) (w : world) (curr : ptr) : result world :=
  match curr with
  | None => Ok w
  | Some _ =>
      match fuel with
      | O => Timeout
      | S fuel' =>
          let to_free := curr in
          n ← load (threads w) curr;
          let curr := next n in
          w1 ← free w to_free;
          cleanup_walk fuel' w1 curr
      end
  end.

(** ** Semaphore *)

Definition sem_init (w : world) (v : Z) : world :=
  World (threads w) (contexts w) (stacks w) (thread_queue w) (Some v).

Definition sem_wait (w : world) : result world :=
  match lock w with
  | None => Fault
  | Some v =>
      if bool_decide (0 < v)
      then Ok (World (threads w) (contexts w) (stacks w) (thread_queue w) (Some (v - 1)))
      else Blocked
  end.

Definition sem_post (w : world) : result world :=
  match lock w with
  | None => Fault
  | Some v => Ok (World (threads w) (contexts w) (stacks w) (thread_queue w) (Some (v + 1)))
  end.

Definition sem_destroy (w : world) : result world :=
  match lock w with
  | None => Fault
  | Some _ => Ok (World (threads w) (contexts w) (stacks w) (thread_queue w) None)
  end.

(** [*thread_queue] *)
Definition the_queue (w : world) : result queue_t :=
  match thread_queue w with Some q => Ok q | None => Fault end.

Definition put (w : world) (q : queue_t) (h : heap) : world :=
  World h (contexts w) (stacks w) (Some q) (lock w).

(** [static void cleanup_queue(queue_t *queue)] *)
Definition cleanup_queue (fuel : nat) (w : world) : result world :=
  q ← the_queue w;
  w1 ← cleanup_walk fuel w (head q);
  w2 ← free w1 (active q);
  (* free(queue) *)
  Ok (World (threads w2) (contexts w2) (stacks w2) None (lock w2)).

(** ** Library implementation *)

(** How a library call hands control back. *)
Inductive control :=
| Returns (rv : Z)
    (* the call returns [rv] to its caller *)
| Swapcontext (oucp ucp : loc)
    (* [swapcontext(oucp, ucp)]: the caller is suspended in [oucp] and
       [ucp] runs; the call returns 0 once [oucp] is resumed *)
| Setcontext (ucp : loc)
    (* [setcontext(ucp)]: [ucp] runs and the caller is never resumed *)
| Exits (status : Z).
    (* [exit(status)]: the process is over *)

(** [void system_init()].  [cell] is what [malloc(sizeof(queue_t))]
    returns: [None] for a null pointer, otherwise the indeterminate
    content of the fresh block. *)
Definition system_init (w : world) (cell : option queue_t) : result world :=
  match cell with
  | None => Fault
  | Some q =>
      let w1 := World (threads w) (contexts w) (stacks w)
                  (Some (Queue (head q) 0 (active q))) (lock w) in
      Ok (sem_init w1 1)
  end.

(** The three [malloc] results of one [uthread_create] call, in program
    order: the [uthread_t] block with its indeterminate content, the
    [ucontext_t] block and the stack; [None] is a null pointer. *)
Record mallocs := Mallocs {
  m_thread : option (loc * uthread_t);
  m_context : ptr;
  m_stack : ptr
}.

(** [int uthread_create(void func(), int priority)] *)
Definition uthread_create (w : world) (m : mallocs) (f : fn) (prio : Z)
    : result (world * control) :=
  match m_thread m with
  | None => Ok (w, Returns (-1))
  | Some (t, junk) =>
      let thread := Some t in
      let h := <[t := junk]> (threads w) in
      h ← set_priority h thread prio;
      h ← store h thread (with_func f);
      h ← store h thread (with_context (m_context m));
      match m_context m with
      | None => Ok (World h (contexts w) (stacks w) (thread_queue w) (lock w), Returns (-1))
      | Some c =>
          (* getcontext; uc_stack.ss_sp = malloc(STACK_SIZE), unchecked;
             uc_stack.ss_size = STACK_SIZE *)
          match m_stack m with
          | None =>
              (* makecontext lays out the first frame of the thread at
                 the top of the stack, [ss_sp + ss_size]: with a null
                 [ss_sp] it writes outside of every block *)
              Fault
          | Some s =>
              (* makecontext *)
              let ss := {[s]} ∪ stacks w in
              n ← load h thread;
              let cs := <[c := Ucontext (AtEntry (func n)) (Some s) STACK_SIZE]> (contexts w) in
              w ← sem_wait (World h cs ss (thread_queue w) (lock w));
              q ← the_queue w;
              '(q, h) ← add q (threads w) thread;
              w ← sem_post (put w q h);
              Ok (w, Returns 0)
          end
      end
  end.

(** The context a [uthread_t] points to, which must be a live
    [ucontext_t] for [swapcontext] and [setcontext] to use it. *)
Definition context_of (w : world) (p : ptr) : result loc :=
  n ← load (threads w) p;
  match context n with
  | None => Fault
  | Some c => match contexts w !! c with Some _ => Ok c | None => Fault end
  end.

(** [int uthread_yield(int priority)] *)
Definition uthread_yield (fuel : nat) (w : world) (prio : Z) : result (world * control) :=
  w ← sem_wait w;
  q ← the_queue w;
  if bool_decide (size q = 0) then
    w ← sem_post w;
    Ok (w, Returns (-1))
  else
    h ← set_priority (threads w) (active q) prio;
    '(thread, q, h) ← get_priority_thread fuel q h;
    let save := active q in
    '(q, h) ← add q h save;
    let q := Queue (head q) (size q) thread in
    w ← sem_post (put w q h);
    oucp ← context_of w save;
    ucp ← context_of w thread;
    (* swapcontext stores the suspended caller in [*oucp] *)
    let cs := alter (λ u, Ucontext InSwapcontext (ss_sp u) (ss_size u)) oucp (contexts w) in
    Ok (World (threads w) cs (stacks w) (thread_queue w) (lock w), Swapcontext oucp ucp).

(** [void uthread_exit()] *)
Definition uthread_exit (fuel : nat) (w : world) : result (world * control) :=
  w ← sem_wait w;
  q ← the_queue w;
  if bool_decide (size q = 0) then
    w ← sem_post w;
    w ← cleanup_queue fuel w;
    w ← sem_destroy w;
    Ok (w, Exits 0)
  else
    '(thread, q, h) ← get_priority_thread fuel q (threads w);
    w ← free (put w q h) (active q);
    let q := Queue (head q) (size q) thread in
    w ← sem_post (put w q (threads w));
    ucp ← context_of w thread;
    Ok (w, Setcontext ucp).

(** The memory of a process that has not called the library yet. *)
Definition boot : world := World ∅ ∅ ∅ None None.

(** ** The ring invariant *)

(** Position, in a ring of [n] records, of the record that the one at
    position [i] points to with [prev], respectively with [next]. *)
Definition sidx (n i : nat) : nat := if decide (S i = n) then 0%nat else S i.
Definition pidx (n i : nat) : nat := if decide (i = 0%nat) then pred n else pred i.

(** The cells of [l] are live and linked circularly in both directions:
    [prev] leads from each record of [l] to the one after it, and from
    the last one to the first; [next] leads the other way round. *)
Definition linked (h : heap) (l : list loc) : Prop :=
  ∀ (i : nat) (a : loc), l !! i = Some a →
    ∃ nd, h !! a = Some nd
          ∧ prev nd = l !! sidx (length l) i
          ∧ next nd = l !! pidx (length l) i.

(** [ring q h l]: the ready records of [q] are exactly those of [l],
    without repetition, [head] is the first of them, [size] counts
    them and they form a circular doubly-linked list.  [l] lists the
    ready records from [head] in [prev] direction. *)
Record ring (q : queue_t) (h : heap) (l : list loc) : Prop := Ring {
  ring_nodup : NoDup l;
  ring_size : size q = Z.of_nat (length l);
  ring_head : l ≠ [] → head q = l !! 0%nat;
  ring_linked : linked h l
}.

(** [tour dir h k p]: follow the pointer [dir] from [p], [k] times;
    the records passed and the pointer reached. *)
Fixpoint tour (dir : uthread_t → ptr) (h : heap) (k : nat) (p : ptr)
    : result (list loc * ptr) :=
  match k with
  | O => Ok ([], p)
  | S k' =>
      match p with
      | None => Fault
      | Some a =>
          n ← load h p;
          '(vs, r) ← tour dir h k' (dir n);
          Ok (a :: vs, r)
      end
  end.

(** The ring invariant in the words of the specification: from every
    ready record, [size] steps along [next], and as many along [prev],
    pass every ready record once and come back to the start. *)
Definition circular (q : queue_t) (h : heap) (l : list loc) : Prop :=
  size q = Z.of_nat (length l)
  ∧ (l ≠ [] → ∃ a, head q = Some a ∧ a ∈ l)
  ∧ ∀ a, a ∈ l →
      ∃ vn vp, tour next h (length l) (Some a) = Ok (vn, Some a) ∧ vn ≡ₚ l
             ∧ tour prev h (length l) (Some a) = Ok (vp, Some a) ∧ vp ≡ₚ l.

(** The record with the numerically smallest priority that comes first
    in [l]: position [k] holds a priority below all earlier ones and not
    above any later one. *)
Definition first_min (h : heap) (l : list loc) (k : nat) : Prop :=
  ∃ a nd, l !! k = Some a ∧ h !! a = Some nd
    ∧ ∀ (j : nat) b nb, l !! j = Some b → h !! b = Some nb →
        priority nd ≤ priority nb ∧ ((j < k)%nat → priority nd < priority nb).

(** The record at [b] is live and its context is the live [ucontext_t]
    at [c]. *)
Definition has_context (w : world) (b c : loc) : Prop :=
  ∃ n, threads w !! b = Some n ∧ context n = Some c ∧ is_Some (contexts w !! c).

(** The scheduler between two library calls: the registry exists, the
    semaphore is free, the ready records [l] satisfy the ring invariant,
    each of them has a context, and [size] is a C [int]. *)
Record scheduler (w : world) (q : queue_t) (l : list loc) : Prop := Scheduler {
  sch_queue : thread_queue w = Some q;
  sch_lock : lock w = Some 1;
  sch_ring : ring q (threads w) l;
  sch_contexts : ∀ b, b ∈ l → ∃ c, has_context w b c;
  sch_int : size q ≤ INT_MAX
}.

(** The running thread has a record: [active] is a live record with a
    context, and it is not in the ring. *)
Record running (w : world) (q : queue_t) (l : list loc) (a : loc) : Prop := Running {
  run_active : active q = Some a;
  run_out : a ∉ l;
  run_context : ∃ c, has_context w a c
}.

(** The fields of a record that the queue operations leave alone. *)
Definition data (n : uthread_t) : Z * fn * ptr := (priority n, func n, context n).

(** [h'] has the live cells of [h], with the same priority, function
    and context. *)
Definition same_data (h h' : heap) : Prop :=
  ∀ b : loc, data <$> h' !! b = data <$> h !! b.

(** [first_min] restricted to the positions up to [m]: what the scan
    knows after it has looked at position [m]. *)
Definition first_min_upto (h : heap) (l : list loc) (m k : nat) : Prop :=
  (k ≤ m)%nat ∧
  ∃ a nd, l !! k = Some a ∧ h !! a = Some nd
    ∧ ∀ (j : nat) b nb, (j ≤ m)%nat → l !! j = Some b → h !! b = Some nb →
        priority nd ≤ priority nb ∧ ((j < k)%nat → priority nd < priority nb).

(** One direction of the ring: [dir] leads from each record of [l] to
    the one after it, and from the last one to the first. *)
Definition chain (dir : uthread_t → ptr) (h : heap) (l : list loc) : Prop :=
  ∀ (i : nat) (a : loc), l !! i = Some a →
    ∃ nd, h !! a = Some nd ∧ dir nd = l !! sidx (length l) i.

(** The memory after [system_init] in a fresh process, when [malloc]
    hands out a zero-filled block. *)
Definition zeroed : queue_t := Queue None 0 None.
Definition started : world := World ∅ ∅ ∅ (Some zeroed) (Some 1).

(** Indeterminate content of a fresh [uthread_t] block. *)
Definition junk0 : uthread_t := Uthread 0 1%positive None None None.

(** The initial thread creates three threads: records 10, 20 and 30,
    in this order, with priorities 5, 5 and 2. *)
Definition three_threads : result world :=
  '(w, _) ← uthread_create started
     (Mallocs (Some (10%positive, junk0)) (Some 11%positive) (Some 12%positive)) 100%positive 5;
  '(w, _) ← uthread_create w
     (Mallocs (Some (20%positive, junk0)) (Some 21%positive) (Some 22%positive)) 200%positive 5;
  '(w, _) ← uthread_create w
     (Mallocs (Some (30%positive, junk0)) (Some 31%positive) (Some 32%positive)) 300%positive 2;
  Ok w.

(** The registry [three_threads] ends in. *)
Definition heap3 : heap :=
  list_to_map
    [(10%positive, Uthread 5 100%positive (Some 11%positive) (Some 30%positive) (Some 20%positive));
     (20%positive, Uthread 5 200%positive (Some 21%positive) (Some 10%positive) (Some 30%positive));
     (30%positive, Uthread 2 300%positive (Some 31%positive) (Some 20%positive) (Some 10%positive))].
Definition queue3 : queue_t := Queue (Some 10%positive) 3 None.
Definition ready3 : list loc := [10%positive; 20%positive; 30%positive].

(** A run of the library from a fresh process: the initial thread
    creates thread A (record 10, function 100, priority 9) and exits, so
    that A runs; A creates thread B (record 20, function 200,
    priority 5). *)
Definition two_threads : result world :=
  '(w, _) ← uthread_create started
     (Mallocs (Some (10%positive, junk0)) (Some 11%positive) (Some 12%positive)) 100%positive 9;
  '(w, _) ← uthread_exit 1 w;
  '(w, _) ← uthread_create w
     (Mallocs (Some (20%positive, junk0)) (Some 21%positive) (Some 22%positive)) 200%positive 5;
  Ok w.

(** The memory [two_threads] ends in: A is running, B is ready. *)
Definition queue_ab : queue_t := Queue (Some 20%positive) 1 (Some 10%positive).
Definition world_ab : world :=
  World
    (list_to_map
       [(10%positive, Uthread 9 100%positive (Some 11%positive) (Some 10%positive) (Some 10%positive));
        (20%positive, Uthread 5 200%positive (Some 21%positive) (Some 20%positive) (Some 20%positive))])
    (list_to_map
       [(11%positive, Ucontext (AtEntry 100%positive) (Some 12%positive) STACK_SIZE);
        (21%positive, Ucontext (AtEntry 200%positive) (Some 22%positive) STACK_SIZE)])
    {[12%positive; 22%positive]}
    (Some queue_ab) (Some 1).

(** A run that leaves one thread and nothing ready: the initial thread
    creates thread A (record 10) and exits, so that A runs alone. *)
Definition one_thread : result world :=
  '(w, _) ← uthread_create started
     (Mallocs (Some (10%positive, junk0)) (Some 11%positive) (Some 12%positive)) 100%positive 9;
  '(w, _) ← uthread_exit 1 w;
  Ok w.

(** The memory [one_thread] ends in. *)
Definition world_a : world :=
  World
    {[10%positive := Uthread 9 100%positive (Some 11%positive) (Some 10%positive) (Some 10%positive)]}
    {[11%positive := Ucontext (AtEntry 100%positive) (Some 12%positive) STACK_SIZE]}
    {[12%positive]}
    (Some (Queue None 0 (Some 10%positive))) (Some 1).

(** Scenario B of the specification, run by the thread [w] has running:
    it creates f (record 20, function 200) and then g (record 30,
    function 300), both at priority 5, and yields with priority 5. *)
Definition scenario_B (fuel : nat) (w : world) : result (world * control) :=
  '(w, _) ← uthread_create w
     (Mallocs (Some (20%positive, junk0)) (Some 21%positive) (Some 22%positive)) 200%positive 5;
  '(w, _) ← uthread_create w
     (Mallocs (Some (30%positive, junk0)) (Some 31%positive) (Some 32%positive)) 300%positive 5;
  uthread_yield fuel w 5.

(** The function a context starts when control is given to it. *)
Definition entry_of (w : world) (c : loc) : option resume := uc_resume <$> contexts w !! c.

(** The priority stored in the record at [b]. *)
Definition priority_of (w : world) (b : loc) : option Z := priority <$> threads w !! b.

(** The record [active] points to. *)
Definition active_of (w : world) : ptr := q ← thread_queue w; active q.

(** ** Models of longer runs *)

(** Priority of the record at [a]. *)
Definition prio (h : heap) (a : loc) : Z := default 0 (priority <$> h !! a).

(** Position of the first of the smallest numbers of a list: the
    running minimum moves only on a strictly smaller number. *)
Fixpoint first_min_from (best : Z) (bi i : nat) (ps : list Z) : nat :=
  match ps with
  | [] => bi
  | p :: ps' =>
      if bool_decide (p < best) then first_min_from p i (S i) ps'
      else first_min_from best bi (S i) ps'
  end.
Definition first_min_index (ps : list Z) : nat :=
  match ps with
  | [] => 0%nat
  | p :: ps' => first_min_from p 0 1 ps'
  end.

(** Fuel for one pass over the ring. *)
Definition fuel_for (q : queue_t) : nat := Z.to_nat (size q).
Definition fuel_of (w : world) : nat :=
  match thread_queue w with Some q => fuel_for q | None => 0%nat end.

(** A sequence of calls of [add] and [get_priority_thread]; the run
    collects the pointers that [get_priority_thread] returns. *)
Inductive qop :=
| QAdd (item : loc)
| QGet.

Fixpoint run_qops (ops : list qop) (q : queue_t) (h : heap)
    : result (queue_t * heap * list ptr) :=
  match ops with
  | [] => Ok (q, h, [])
  | QAdd item :: ops =>
      '(q, h) ← add q h (Some item);
      run_qops ops q h
  | QGet :: ops =>
      '(r, q, h) ← get_priority_thread (fuel_for q) q h;
      '(q, h, outs) ← run_qops ops q h;
      Ok (q, h, r :: outs)
  end.

(** The same sequence on a plain list of records with priorities [pr]:
    [add] appends, [get_priority_thread] takes out the first record of
    smallest priority. *)
Fixpoint model_qops (pr : loc → Z) (ops : list qop) (l : list loc) : list loc * list ptr :=
  match ops with
  | [] => (l, [])
  | QAdd item :: ops => model_qops pr ops (l ++ [item])
  | QGet :: ops =>
      let k := first_min_index (pr <$> l) in
      let '(l', outs) := model_qops pr ops (delete k l) in
      (l', l !! k :: outs)
  end.

(** The records a sequence adds are live and are not in the ring when
    they are added. *)
Fixpoint valid_qops (pr : loc → Z) (h : heap) (ops : list qop) (l : list loc) : Prop :=
  match ops with
  | [] => True
  | QAdd item :: ops => is_Some (h !! item) ∧ (item ∉ l) ∧ valid_qops pr h ops (l ++ [item])
  | QGet :: ops => valid_qops pr h ops (delete (first_min_index (pr <$> l)) l)
  end.

(** [heap3] with one more live record, 40, of priority 1, which is not
    in the ring. *)
Definition heap4 : heap :=
  <[40%positive := Uthread 1 400%positive (Some 41%positive) None None]> heap3.

(** ** Runs of library calls *)

(** A scheduler in order whose running thread [a] has a record, with
    the ready records [l]; [head] is null when nothing is ready. *)
Definition good (w : world) (l : list loc) (a : loc) : Prop :=
  ∃ q, scheduler w q l ∧ running w q l a ∧ (l = [] → head q = None).

(** The scheduler while the initial thread, which has no record, runs
    on a zero-filled registry block: [active] is null. *)
Definition initial (w : world) (l : list loc) : Prop :=
  ∃ q, scheduler w q l ∧ active q = None ∧ (l = [] → head q = None).

(** The address [x] is that of a live block. *)
Definition allocated (w : world) (x : loc) : bool :=
  bool_decide (is_Some (threads w !! x))
  || bool_decide (is_Some (contexts w !! x))
  || bool_decide (x ∈ stacks w).

(** What [malloc] returns in a call of [uthread_create] that goes
    well: for the record and for the context, null or a block that was
    not live; for the stack, which is asked for only when the other two
    are there, a block that was not live (with a null pointer there the
    call is undefined).  The blocks of one call are distinct. *)
Definition malloc_ok (w : world) (m : mallocs) : Prop :=
  match m_thread m with
  | None => True
  | Some (t, _) =>
      allocated w t = false
      ∧ match m_context m with
        | None => True
        | Some c =>
            allocated w c = false ∧ c ≠ t
            ∧ match m_stack m with
              | None => False
              | Some s => allocated w s = false ∧ s ≠ t ∧ s ≠ c
              end
        end
  end.

(** A call of the library. *)
Inductive call :=
| Create (m : mallocs) (f : fn) (prio : Z)
| Yield (prio : Z)
| Exit.

Definition do_call (w : world) (c : call) : result (world * control) :=
  match c with
  | Create m f prio => uthread_create w m f prio
  | Yield prio => uthread_yield (fuel_of w) w prio
  | Exit => uthread_exit (fuel_of w) w
  end.

(** A sequence of calls, each made by the thread that is running when
    its turn comes; the run ends when the process exits, with the exit
    status. *)
Fixpoint run_calls (cs : list call) (w : world) : result (world * option Z) :=
  match cs with
  | [] => Ok (w, None)
  | c :: cs =>
      '(w', ctl) ← do_call w c;
      match ctl with
      | Exits status => Ok (w', Some status)
      | _ => run_calls cs w'
      end
  end.

(** The [malloc] results of every [uthread_create] of the sequence
    are as [malloc_ok] says, in the memory of the moment. *)
Fixpoint mallocs_ok (cs : list call) (w : world) : Prop :=
  match cs with
  | [] => True
  | c :: cs =>
      match c with Create m _ _ => malloc_ok w m | _ => True end
      ∧ match do_call w c with
        | Ok (w', Exits _) => True
        | Ok (w', _) => mallocs_ok cs w'
        | _ => True
        end
  end.

(** Every thread exits in its turn: [uthread_exit] is called until the
    process ends, at most [n] times after the first; the result lists
    the records that became [active] on the way. *)
Fixpoint exit_all (n : nat) (w : world) : result (list ptr * world * Z) :=
  '(w', ctl) ← uthread_exit (fuel_of w) w;
  match ctl with
  | Exits status => Ok ([], w', status)
  | _ =>
      match n with
      | O => Timeout
      | S n' =>
          '(order, wf, status) ← exit_all n' w';
          Ok (active_of w' :: order, wf, status)
      end
  end.

(** The order in which a list of records is emptied by taking out the
    first record of smallest priority again and again. *)
Fixpoint drain_order (n : nat) (pr : loc → Z) (l : list loc) : list loc :=
  match n with
  | O => []
  | S n' =>
      let k := first_min_index (pr <$> l) in
      match l !! k with
      | Some s => s :: drain_order n' pr (delete k l)
      | None => []
      end
  end.

(** A sequence of calls from [world_ab]: A yields to B, B creates C
    (record 30) and exits, and the two threads left exit in their
    turn. *)
Definition calls_ab : list call :=
  [Yield 1;
   Create (Mallocs (Some (30%positive, junk0)) (Some 31%positive) (Some 32%positive))
     300%positive 2;
   Exit; Exit; Exit].

(** [order] holds the records of [l] by priority, smallest number
    first, and records of equal priority in the order they have
    in [l]. *)
Definition by_priority (pr : loc → Z) (l order : list loc) : Prop :=
  order ≡ₚ l
  ∧ (∀ (i j : nat) x y, (i < j)%nat → order !! i = Some x → order !! j = Some y →
       pr x ≤ pr y)
  ∧ (∀ (i j : nat) x y, (i < j)%nat → order !! i = Some x → order !! j = Some y →
       pr x = pr y →
       ∃ (i' j' : nat), (i' < j')%nat ∧ l !! i' = Some x ∧ l !! j' = Some y).

(** The memory [three_threads] ends in: the initial thread is still
    running, on a zero-filled registry block. *)
Definition world3 : world :=
  World heap3
    (list_to_map
       [(11%positive, Ucontext (AtEntry 100%positive) (Some 12%positive) STACK_SIZE);
        (21%positive, Ucontext (AtEntry 200%positive) (Some 22%positive) STACK_SIZE);
        (31%positive, Ucontext (AtEntry 300%positive) (Some 32%positive) STACK_SIZE)])
    {[12%positive; 22%positive; 32%positive]}
    (Some queue3) (Some 1).

(** [world3] on a registry block that was not zero-filled: [active]
    holds 99, the address of no block. *)
Definition world3_junk : world :=
  World (threads world3) (contexts world3) (stacks world3)
    (Some (Queue (Some 10%positive) 3 (Some 99%positive))) (Some 1).

(** [world3] on a registry block whose [active] holds 21, the address
    of the context of the second thread. *)
Definition world3_alias : world :=
  World (threads world3) (contexts world3) (stacks world3)
    (Some (Queue (Some 10%positive) 3 (Some 21%positive))) (Some 1).

(** Thread D (record 40, priority 1, context 41, stack 42) running,
    with the three threads of [world3] ready; block 50 is a record
    that a failed [uthread_create] has left behind. *)
Definition queue4 : queue_t := Queue (Some 10%positive) 3 (Some 40%positive).
Definition world4 : world :=
  World (<[50%positive := Uthread 7 500%positive None None None]> heap4)
    (<[41%positive := Ucontext InSwapcontext (Some 42%positive) STACK_SIZE]> (contexts world3))
    ({[42%positive]} ∪ stacks world3)
    (Some queue4) (Some 1).


(** A run that leaves A running and two threads of the same priority
    ready: after [one_thread], A creates f (record 20) and then g
    (record 30), both at priority 5. *)
Definition two_ready : result world :=
  w ← one_thread;
  '(w, _) ← uthread_create w
     (Mallocs (Some (20%positive, junk0)) (Some 21%positive) (Some 22%positive)) 200%positive 5;
  '(w, _) ← uthread_create w
     (Mallocs (Some (30%positive, junk0)) (Some 31%positive) (Some 32%positive)) 300%positive 5;
  Ok w.

(** The memory [two_ready] ends in. *)
Definition queue_fg : queue_t := Queue (Some 20%positive) 2 (Some 10%positive).
Definition world_fg : world :=
  World
    (list_to_map
       [(10%positive, Uthread 9 100%positive (Some 11%positive) (Some 10%positive) (Some 10%positive));
        (20%positive, Uthread 5 200%positive (Some 21%positive) (Some 30%positive) (Some 30%positive));
        (30%positive, Uthread 5 300%positive (Some 31%positive) (Some 20%positive) (Some 20%positive))])
    (list_to_map
       [(11%positive, Ucontext (AtEntry 100%positive) (Some 12%positive) STACK_SIZE);
        (21%positive, Ucontext (AtEntry 200%positive) (Some 22%positive) STACK_SIZE);
        (31%positive, Ucontext (AtEntry 300%positive) (Some 32%positive) STACK_SIZE)])
    {[12%positive; 22%positive; 32%positive]}
    (Some queue_fg) (Some 1).


(** ** The test program ([uthread_test.c]) *)

(** The three [printf] formats of [do_something], with the value
    printed for [%d]. *)
Inductive line :=
| ThisIsUlt (id : Z)              (* "This is ult %d\n" *)
| ThisIsUltAgain (id : Z)         (* "This is ult %d again\n" *)
| ThisIsUltOneMoreTime (id : Z).  (* "This is ult %d one more time\n" *)

(** The state of the test program: the memory of the library, the two
    globals, the local [id] of every invocation of [do_something] that
    is suspended in [swapcontext] (it lives on that thread's stack and
    is found again through the context that resumes it), what has been
    printed, and how many times [uthread_create] has been called (the
    index of its [malloc] results in the allocator). *)
Record program := Program {
  mem : world;
  n_threads : Z;
  myid : Z;
  frames : gmap loc Z;
  stdout : list line;
  created : nat
}.

Definition printf (d : program) (s : line) : program :=
  Program (mem d) (n_threads d) (myid d) (frames d) (stdout d ++ [s]) (created d).

Definition with_mem (d : program) (w : world) : program :=
  Program w (n_threads d) (myid d) (frames d) (stdout d) (created d).

(** The address of the function [do_something]. *)
Definition do_something : fn := 1%positive.

(** Where a thread of the test program is when it gets control: at the
    entry of [do_something], or back from [uthread_yield] with its
    local [id]. *)
Inductive point := AtStart | AfterYield (id : Z).

(** What runs when control is transferred to the context [ucp]. *)
Definition resume_at (d : program) (ucp : loc) : result point :=
  match contexts (mem d) !! ucp with
  | Some (Ucontext (AtEntry f) _ _) =>
      if bool_decide (f = do_something) then Ok AtStart else Fault
  | Some (Ucontext InSwapcontext _ _) =>
      match frames d !! ucp with
      | Some id => Ok (AfterYield id)
      | None => Fault
      end
  | _ => Fault
  end.

(** The allocator that hands out the blocks of the [n]-th call of
    [uthread_create] at three fresh consecutive addresses; [junk n] is
    the indeterminate content of the [uthread_t] block. *)
Definition bump (junk : nat → uthread_t) (n : nat) : mallocs :=
  Mallocs (Some (Pos.of_nat (3 * n + 1), junk n))
          (Some (Pos.of_nat (3 * n + 2)))
          (Some (Pos.of_nat (3 * n + 3))).

Section test_program.
Variable alloc : nat → mallocs.

(** [uthread_create(do_something,2);] the value returned is not
    looked at. *)
Definition create_ult (d : program) : result program :=
  '(w, _) ← uthread_create (mem d) (alloc (created d)) do_something 2;
  Ok (Program w (n_threads d) (myid d) (frames d) (stdout d) (S (created d))).

(** [uthread_create(do_something,2); n_threads++;] *)
Definition create_and_count (d : program) : result program :=
  d ← create_ult d;
  n ← incr (n_threads d);
  Ok (Program (mem d) n (myid d) (frames d) (stdout d) (created d)).

(** [do_something] from its entry to the call of [uthread_yield]:
    the state and the local [id]. *)
Definition do_something_enter (d : program) : result (program * Z) :=
  let id := myid d in
  m ← incr (myid d);
  let d := Program (mem d) (n_threads d) m (frames d) (stdout d) (created d) in
  let d := printf d (ThisIsUlt id) in
  d ← (if bool_decide (n_threads d < 10) then
         d ← create_and_count d;
         create_and_count d
       else Ok d);
  Ok (printf d (ThisIsUltAgain id), id).

(** The threads of the test program, one after the other: each step
    runs the thread that has control from [pc] to its next transfer
    of control.  The result is the state when the process exits, and
    the exit status. *)
Fixpoint run (fuel : nat) (d : program) (pc : point) : result (program * Z) :=
  match fuel with
  | O => Timeout
  | S fuel =>
      match pc with
      | AtStart =>
          '(d, id) ← do_something_enter d;
          '(w, ctl) ← uthread_yield (fuel_of (mem d)) (mem d) 1;
          let d := with_mem d w in
          match ctl with
          | Returns _ => run fuel d (AfterYield id)
          | Swapcontext oucp ucp =>
              let d := Program (mem d) (n_threads d) (myid d)
                         (<[oucp := id]> (frames d)) (stdout d) (created d) in
              pc ← resume_at d ucp;
              run fuel d pc
          | Setcontext _ => Fault
          | Exits status => Ok (d, status)
          end
      | AfterYield id =>
          let d := printf d (ThisIsUltOneMoreTime id) in
          '(w, ctl) ← uthread_exit (fuel_of (mem d)) (mem d);
          let d := with_mem d w in
          match ctl with
          | Setcontext ucp =>
              pc ← resume_at d ucp;
              run fuel d pc
          | Exits status => Ok (d, status)
          | _ => Fault
          end
      end
  end.

(** [int main()], in a process that has not called the library yet;
    [cell] is the block [system_init] gets from [malloc]. *)
Definition main (fuel : nat) (cell : option queue_t) : result (program * Z) :=
  w ← system_init boot cell;
  d ← create_ult (Program w 0 0 ∅ [] 0);
  '(w, ctl) ← uthread_exit (fuel_of (mem d)) (mem d);
  let d := with_mem d w in
  match ctl with
  | Setcontext ucp =>
      pc ← resume_at d ucp;
      run fuel d pc
  | Exits status => Ok (d, status)
  | _ => Fault
  end.
End test_program.

(** The three lines of the thread that got [id]. *)
Definition lines_of (id : Z) : list line :=
  [ThisIsUlt id; ThisIsUltAgain id; ThisIsUltOneMoreTime id].

(** The addresses [bump] gives to the contexts and to the stacks of
    the first [n] calls of [uthread_create]. *)
Definition bump_contexts (n : nat) : list loc :=
  (λ i, Pos.of_nat (3 * i + 2)) <$> seq 0 n.

Definition bump_stacks (n : nat) : list loc :=
  (λ i, Pos.of_nat (3 * i + 3)) <$> seq 0 n.

(** What the test program prints: the threads come in pairs, the
    second of a pair starts when the first yields, and both finish
    before the next pair starts; the last thread is alone. *)
Definition pair_output (a b : Z) : list line :=
  [ThisIsUlt a; ThisIsUltAgain a; ThisIsUlt b; ThisIsUltAgain b;
   ThisIsUltOneMoreTime a; ThisIsUltOneMoreTime b].

Definition test_output : list line :=
  pair_output 0 1 ++ pair_output 2 3 ++ pair_output 4 5
  ++ pair_output 6 7 ++ pair_output 8 9 ++ lines_of 10.

(** * Verification *)

(** ** Basic facts about the memory operations *)

Lemma load_Some (h : heap) l n : h !! l = Some n → load h (Some l) = Ok n.
Proof. intros H. unfold load. by rewrite H. Qed.

Lemma store_Some (h : heap) l n f :
  h !! l = Some n → store h (Some l) f = Ok (<[l := f n]> h).
Proof. intros H. unfold store. by rewrite H. Qed.

Lemma free_record w a n :
  threads w !! a = Some n →
  free w (Some a)
  = Ok (World (delete a (threads w)) (contexts w) (stacks w) (thread_queue w) (lock w)).
Proof. intros H. unfold free. by rewrite H. Qed.

Lemma sidx_lt n i : (i < n)%nat → (sidx n i < n)%nat.
Proof. unfold sidx. case_decide; lia. Qed.

Lemma pidx_lt n i : (i < n)%nat → (pidx n i < n)%nat.
Proof. unfold pidx. case_decide; lia. Qed.

Lemma nodup_index (l : list loc) i j a b :
  NoDup l → l !! i = Some a → l !! j = Some b → a = b → i = j.
Proof. intros Hnd Hi Hj ->. eapply NoDup_lookup; eauto. Qed.

Lemma nodup_neq (l : list loc) i j a b :
  NoDup l → l !! i = Some a → l !! j = Some b → i ≠ j → a ≠ b.
Proof. intros Hnd Hi Hj Hne Heq. apply Hne. eapply nodup_index; eauto. Qed.

Lemma lookup_fresh (l : list loc) i a item : l !! i = Some a → item ∉ l → item ≠ a.
Proof. intros Hi Hn ->. apply Hn. by eapply list_elem_of_lookup_2. Qed.

Lemma same_data_refl h : same_data h h.
Proof. by intros b. Qed.

Lemma same_data_trans h1 h2 h3 : same_data h1 h2 → same_data h2 h3 → same_data h1 h3.
Proof. intros H12 H23 b. by rewrite H23, H12. Qed.

Lemma same_data_insert (h : heap) l n n' :
  h !! l = Some n → data n' = data n → same_data h (<[l := n']> h).
Proof.
  intros Hl Hd b. destruct (decide (l = b)) as [<- | Hne].
  - rewrite lookup_insert_eq, Hl. simpl. by rewrite Hd.
  - by rewrite lookup_insert_ne.
Qed.

Lemma same_data_lookup h h' b n :
  same_data h h' → h !! b = Some n → ∃ n', h' !! b = Some n' ∧ data n' = data n.
Proof.
  intros Hs Hb. specialize (Hs b). rewrite Hb in Hs.
  destruct (h' !! b) as [n' |]; simpl in Hs; [| done].
  exists n'. split; [done | congruence].
Qed.

#[local] Hint Resolve same_data_refl : core.

Arguments load : simpl never.
Arguments store : simpl never.
Arguments free : simpl never.

(** ** Insert *)

(** [heap_lookup] resolves a lookup in a heap that went through stores;
    [exec] runs the loads and stores at the front of a computation when
    the cells they touch are known; [same_data_tac] shows that a
    sequence of stores to link fields kept the data of every record. *)
Ltac heap_lookup :=
  repeat first
    [ rewrite lookup_insert_eq
    | rewrite lookup_insert_ne by (first [assumption | congruence | by apply not_eq_sym]) ].

Ltac exec :=
  repeat first
    [ erewrite load_Some by (heap_lookup; first [eassumption | reflexivity])
    | erewrite store_Some by (heap_lookup; first [eassumption | reflexivity])
    | progress cbn [mbind result_bind] ].

Ltac same_data_tac :=
  repeat first
    [ apply same_data_refl
    | eapply same_data_trans; [| eapply same_data_insert; [heap_lookup; first [eassumption | reflexivity] | reflexivity]] ].

(** Insertion into the empty ring. *)
Lemma add_empty q h item nd :
  size q = 0 → h !! item = Some nd →
  ∃ h', add q h (Some item) = Ok (Queue (Some item) 1 (active q), h')
        ∧ ring (Queue (Some item) 1 (active q)) h' [item]
        ∧ same_data h h'
        ∧ ∀ b, b ≠ item → h' !! b = h !! b.
Proof.
  intros Hsz Hit. unfold add, set_next, set_prev. rewrite Hsz. simpl. exec.
  eexists. split; [done |]. split; [| split].
  - constructor; simpl; try done.
    + apply NoDup_singleton.
    + intros [| i] a Hi; [| done]. injection Hi as <-.
      eexists. split; [apply lookup_insert_eq |]. done.
  - same_data_tac.
  - intros b Hb. by heap_lookup.
Qed.

Lemma incr_ok n : n < INT_MAX → incr n = Ok (n + 1).
Proof. intros H. unfold incr. rewrite bool_decide_eq_false_2 by lia. done. Qed.

Lemma decr_ok n : INT_MIN < n → decr n = Ok (n - 1).
Proof. intros H. unfold decr. rewrite bool_decide_eq_false_2 by lia. done. Qed.

(** Insertion into a ring of one record. *)
Lemma add_single q h a0 item nd :
  ring q h [a0] → h !! item = Some nd → item ≠ a0 →
  ∃ h', add q h (Some item) = Ok (Queue (head q) 2 (active q), h')
        ∧ ring (Queue (head q) 2 (active q)) h' [a0; item]
        ∧ same_data h h'
        ∧ ∀ b, b ≠ a0 → b ≠ item → h' !! b = h !! b.
Proof.
  intros [Hnd Hsz Hhd Hl] Hit Hne. simpl in Hsz.
  destruct (Hl 0%nat a0 eq_refl) as (n0 & Hn0 & _).
  assert (Hh : head q = Some a0) by (by rewrite Hhd).
  unfold add, set_next, set_prev. rewrite Hsz. simpl.
  rewrite !Hh. exec. rewrite Hsz. simpl.
  eexists. split; [by rewrite Hh |]. split; [| split].
  - constructor; simpl; try done.
    + apply NoDup_cons. split; [| apply NoDup_singleton].
      intros Hin%list_elem_of_singleton. congruence.
    + intros [| [| i]] a Hi; [| | done]; injection Hi as <-.
      * eexists. split; [by heap_lookup |]. done.
      * eexists. split; [by heap_lookup |]. done.
  - same_data_tac.
  - intros b Hb0 Hbi. by heap_lookup.
Qed.

(** Insertion into a ring of two records or more. *)
Lemma add_many q h l item nd :
  ring q h l → (2 ≤ length l)%nat → h !! item = Some nd → item ∉ l →
  size q < INT_MAX →
  ∃ h', add q h (Some item) = Ok (Queue (head q) (size q + 1) (active q), h')
        ∧ ring (Queue (head q) (size q + 1) (active q)) h' (l ++ [item])
        ∧ same_data h h'
        ∧ ∀ b, b ∉ l → b ≠ item → h' !! b = h !! b.
Proof.
  intros [Hnd Hsz Hhd Hl] Hlen Hit Hfresh Hmax.
  remember (length l) as n eqn:En.
  destruct (lookup_lt_is_Some_2 l 0) as [a0 Ha0]; [lia |].
  destruct (lookup_lt_is_Some_2 l (pred n)) as [z Hz]; [lia |].
  assert (Hh : head q = Some a0) by (rewrite Hhd; [done | by intros ->]).
  destruct (Hl _ _ Ha0) as (n0 & Hn0 & Hp0 & Hx0).
  destruct (Hl _ _ Hz) as (nz & Hnz & Hpz & Hxz).
  rewrite <- En in Hp0, Hx0, Hpz, Hxz.
  unfold pidx in Hx0. rewrite decide_True in Hx0 by done. rewrite Hz in Hx0.
  assert (a0 ≠ z) by (eapply nodup_neq; eauto; lia).
  assert (item ≠ a0) by (eapply lookup_fresh; eauto).
  assert (item ≠ z) by (eapply lookup_fresh; eauto).
  unfold add, set_next, set_prev.
  rewrite !bool_decide_eq_false_2 by lia. rewrite !Hh.
  exec. rewrite Hx0. exec. rewrite Hx0. exec.
  rewrite incr_ok by done. cbn [mbind result_bind].
  eexists. split; [by rewrite Hh |]. split; [| split].
  - constructor; simpl.
    + apply NoDup_app. split; [done |]. split; [| apply NoDup_singleton].
      intros x Hx Hx'. apply list_elem_of_singleton in Hx'. by subst.
    + rewrite length_app. simpl. lia.
    + intros _. rewrite ?Hh. by rewrite lookup_app_l by lia.
    + intros i a Hi. rewrite length_app, <- En. simpl.
      replace (n + 1)%nat with (S n) by lia.
      assert (Hlast : (l ++ [item]) !! n = Some item)
        by (by rewrite list_lookup_middle).
      destruct (decide (i = n)) as [-> | Hin].
      { rewrite Hlast in Hi. injection Hi as <-. eexists. split; [by heap_lookup |].
        simpl. split.
        - unfold sidx. rewrite decide_True by done. by rewrite lookup_app_l by lia.
        - unfold pidx. rewrite decide_False by lia.
          rewrite lookup_app_l by lia. by rewrite Hz. }
      assert (Hi' : (i < n)%nat).
      { apply lookup_lt_Some in Hi. rewrite length_app in Hi. simpl in Hi. lia. }
      rewrite lookup_app_l in Hi by lia.
      destruct (Hl _ _ Hi) as (ni & Hni & Hpi & Hxi). rewrite <- En in Hpi, Hxi.
      assert (item ≠ a) by (eapply lookup_fresh; eauto).
      destruct (decide (i = 0%nat)) as [-> | Hi0].
      { rewrite Ha0 in Hi. injection Hi as <-. eexists. split; [by heap_lookup |].
        simpl. split.
        - rewrite Hp0. unfold sidx. rewrite !decide_False by lia.
          by rewrite lookup_app_l by lia.
        - done. }
      assert (a0 ≠ a) by (eapply nodup_neq; eauto).
      destruct (decide (i = pred n)) as [-> | Hiz].
      { rewrite Hz in Hi. injection Hi as <-. eexists. split; [by heap_lookup |].
        simpl. split.
        - unfold sidx. rewrite decide_False by lia.
          replace (S (pred n)) with n by lia. done.
        - rewrite Hxz. unfold pidx. rewrite !decide_False by lia.
          by rewrite lookup_app_l by lia. }
      assert (z ≠ a) by (eapply nodup_neq; eauto).
      eexists. split; [heap_lookup; eassumption |]. split.
      * rewrite Hpi. unfold sidx. rewrite !decide_False by lia.
        by rewrite lookup_app_l by lia.
      * rewrite Hxi. unfold pidx. rewrite !decide_False by lia.
        by rewrite lookup_app_l by lia.
  - same_data_tac.
  - intros b Hb Hbi.
    assert (z ≠ b) by (intros ->; apply Hb; by eapply list_elem_of_lookup_2).
    assert (a0 ≠ b) by (intros ->; apply Hb; by eapply list_elem_of_lookup_2).
    by heap_lookup.
Qed.

(** Insert keeps the ring invariant: the new record joins at the end of
    the list, whatever the size of the ring. *)
Lemma add_ring q h l item nd :
  ring q h l → h !! item = Some nd → item ∉ l → size q < INT_MAX →
  ∃ q' h', add q h (Some item) = Ok (q', h')
    ∧ ring q' h' (l ++ [item])
    ∧ same_data h h'
    ∧ (∀ b, b ∉ l → b ≠ item → h' !! b = h !! b)
    ∧ active q' = active q
    ∧ size q' = size q + 1
    ∧ head q' = (match l with [] => Some item | _ => head q end).
Proof.
  intros Hr Hit Hfresh Hmax. pose proof (ring_size _ _ _ Hr) as Hsz.
  destruct l as [| a0 [| a1 l]]; simpl in Hsz.
  - destruct (add_empty q h item nd) as (h' & Ha & Hr' & Hd & Hf); [done .. |].
    exists (Queue (Some item) 1 (active q)), h'. split_and!; try done.
    + intros b _ Hb. by apply Hf.
    + simpl. lia.
  - assert (item ≠ a0) by set_solver.
    destruct (add_single q h a0 item nd) as (h' & Ha & Hr' & Hd & Hf); [done .. |].
    exists (Queue (head q) 2 (active q)), h'. split_and!; try done.
    + intros b Hb Hbi. apply Hf; [set_solver | done].
    + simpl. lia.
  - destruct (add_many q h (a0 :: a1 :: l) item nd) as (h' & Ha & Hr' & Hd & Hf);
      [done | simpl; lia | done .. |].
    exists (Queue (head q) (size q + 1) (active q)), h'. by split_and!.
Qed.

(** ** Select and remove *)

Lemma first_min_upto_last h l k :
  first_min_upto h l (pred (length l)) k → first_min h l k.
Proof.
  intros (Hk & a & nd & Ha & Hn & Hall). exists a, nd. split_and!; try done.
  intros j b nb Hj Hb. eapply (Hall j); eauto. apply lookup_lt_Some in Hj. lia.
Qed.

Lemma ptr_eqb_true p q : p = q → ptr_eqb p q = true.
Proof. intros ->. unfold ptr_eqb. by apply bool_decide_eq_true_2. Qed.

Lemma ptr_eqb_false p q : p ≠ q → ptr_eqb p q = false.
Proof. intros H. unfold ptr_eqb. by apply bool_decide_eq_false_2. Qed.

(** The scan, started at position [i] with the best record so far at
    position [b], ends on the first record of smallest priority. *)
Lemma scan_first_min h l :
  NoDup l → linked h l →
  ∀ fuel (i b : nat) c p np,
    l !! i = Some c → l !! b = Some p → h !! p = Some np →
    first_min_upto h l i b →
    (length l - 1 - i ≤ fuel)%nat →
    ∃ k a, scan fuel h (l !! 0%nat) (Some c) (Some p) (priority np) = Ok (Some a)
           ∧ l !! k = Some a ∧ first_min_upto h l (pred (length l)) k.
Proof.
  intros Hnd Hl. induction fuel as [| fuel IH]; intros i b c p np Hi Hb Hp Hfm Hfuel.
  - pose proof (lookup_lt_Some _ _ _ Hi) as Hilt.
    destruct (Hl _ _ Hi) as (nc & Hnc & Hpc & _).
    assert (i = pred (length l)) as -> by lia.
    unfold sidx in Hpc. rewrite decide_True in Hpc by lia.
    simpl. exec. rewrite ptr_eqb_true by done. eauto.
  - pose proof (lookup_lt_Some _ _ _ Hi) as Hilt.
    destruct (Hl _ _ Hi) as (nc & Hnc & Hpc & _).
    simpl. exec.
    destruct (decide (S i = length l)) as [Hlast | Hmore].
    + unfold sidx in Hpc. rewrite decide_True in Hpc by lia.
      rewrite ptr_eqb_true by done.
      replace (pred (length l)) with i by lia. eauto.
    + unfold sidx in Hpc. rewrite decide_False in Hpc by lia.
      destruct (lookup_lt_is_Some_2 l (S i)) as [c' Hc']; [lia |].
      destruct (lookup_lt_is_Some_2 l 0) as [a0 Ha0]; [lia |].
      rewrite ptr_eqb_false.
      2:{ rewrite Hpc, Hc', Ha0. intros [= ->].
          assert (S i = 0%nat) by (eapply NoDup_lookup; eauto). lia. }
      rewrite Hpc, Hc'.
      destruct (Hl _ _ Hc') as (nc' & Hnc' & _).
      exec. destruct Hfm as (Hbi & p' & np' & Hb' & Hp' & Hall).
      rewrite Hb in Hb'. injection Hb' as <-. rewrite Hp in Hp'. injection Hp' as <-.
      case_bool_decide as Hlt.
      * eapply (IH (S i) (S i)); eauto; [| lia].
        split; [done |]. exists c', nc'. split_and!; try done.
        intros j x nx Hj Hx Hnx. destruct (decide (j = S i)) as [-> | Hne].
        -- rewrite Hc' in Hx. injection Hx as <-. rewrite Hnc' in Hnx.
           injection Hnx as <-. lia.
        -- assert (Hji : (j ≤ i)%nat) by lia.
           destruct (Hall j x nx Hji Hx Hnx). lia.
      * eapply (IH (S i) b); eauto; [| lia].
        split; [lia |]. exists p, np. split_and!; try done.
        intros j x nx Hj Hx Hnx. destruct (decide (j = S i)) as [-> | Hne].
        -- rewrite Hc' in Hx. injection Hx as <-. rewrite Hnc' in Hnx.
           injection Hnx as <-. split; lia.
        -- assert (Hji : (j ≤ i)%nat) by lia.
           destruct (Hall j x nx Hji Hx Hnx). split; lia.
Qed.

(** Unlinking the record at position [k]: if every other cell keeps its
    links, except that the successor of the removed record now points
    back to its predecessor and the other way round, what remains is
    linked. *)
Lemma linked_delete h h' (l : list loc) (k : nat) a ap ax :
  NoDup l → (2 ≤ length l)%nat → linked h l →
  l !! k = Some a →
  l !! sidx (length l) k = Some ap →
  l !! pidx (length l) k = Some ax →
  (∀ b nb, h !! b = Some nb → b ≠ a →
     ∃ nb', h' !! b = Some nb'
       ∧ prev nb' = (if decide (b = ax) then Some ap else prev nb)
       ∧ next nb' = (if decide (b = ap) then Some ax else next nb)) →
  linked h' (delete k l).
Proof.
  intros Hnd Hlen Hl Hk Hap Hax Hh' j b Hj.
  pose proof (lookup_lt_Some _ _ _ Hk) as Hklt.
  pose proof (lookup_lt_Some _ _ _ Hj) as Hjlt.
  rewrite length_delete in * by eauto.
  rewrite list_lookup_delete in Hj.
  remember (if decide (j < k)%nat then j else S j) as i eqn:Ei.
  remember (length l) as n eqn:En.
  assert (Hik : i ≠ k) by (subst i; case_decide; lia).
  assert (Hba : b ≠ a) by (eapply nodup_neq; eauto).
  destruct (Hl _ _ Hj) as (nb & Hnb & Hpb & Hxb). rewrite <- En in Hpb, Hxb.
  destruct (Hh' _ _ Hnb Hba) as (nb' & Hnb' & Hpb' & Hxb').
  exists nb'. split; [done |]. rewrite !list_lookup_delete. split.
  - rewrite Hpb'. clear Hpb' Hxb'. destruct (decide (b = ax)) as [Hc | Hc].
    + subst b. assert (i = pidx n k) by (eapply (NoDup_lookup l); eauto).
      rewrite <- Hap. f_equal. unfold sidx, pidx in *. repeat case_decide; lia.
    + assert (i ≠ pidx n k) by (intros Hi; rewrite <- Hi, Hj in Hax; congruence).
      rewrite Hpb. f_equal. unfold sidx, pidx in *. repeat case_decide; lia.
  - rewrite Hxb'. clear Hpb' Hxb'. destruct (decide (b = ap)) as [Hc | Hc].
    + subst b. assert (i = sidx n k) by (eapply (NoDup_lookup l); eauto).
      rewrite <- Hax. f_equal. unfold sidx, pidx in *. repeat case_decide; lia.
    + assert (i ≠ sidx n k) by (intros Hi; rewrite <- Hi, Hj in Hap; congruence).
      rewrite Hxb. f_equal. unfold sidx, pidx in *. repeat case_decide; lia.
Qed.

Lemma first_min_upto_0 h (l : list loc) a n :
  l !! 0%nat = Some a → h !! a = Some n → first_min_upto h l 0 0.
Proof.
  intros Ha Hn. split; [done |]. exists a, n. split_and!; try done.
  intros j b nb Hj Hb Hnb. assert (j = 0%nat) as -> by lia.
  rewrite Ha in Hb. injection Hb as <-. rewrite Hn in Hnb. injection Hnb as <-. lia.
Qed.

(** Selection in a ring of two records or more. *)
Lemma get_priority_many q h l fuel :
  ring q h l → (2 ≤ length l)%nat → (length l ≤ fuel)%nat →
  ∃ (k : nat) a h',
    get_priority_thread fuel q h
      = Ok (Some a, Queue (delete k l !! 0%nat) (size q - 1) (active q), h')
    ∧ l !! k = Some a ∧ first_min h l k
    ∧ ring (Queue (delete k l !! 0%nat) (size q - 1) (active q)) h' (delete k l)
    ∧ same_data h h'
    ∧ ∀ b, b ∉ l → h' !! b = h !! b.
Proof.
  intros [Hnd Hsz Hhd Hl] Hlen Hfuel.
  remember (length l) as n eqn:En.
  destruct (lookup_lt_is_Some_2 l 0) as [a0 Ha0]; [lia |].
  assert (Hh : head q = Some a0) by (rewrite Hhd; [done | by intros ->]).
  destruct (Hl _ _ Ha0) as (n0 & Hn0 & Hp0 & Hx0).
  destruct (scan_first_min h l Hnd Hl fuel 0 0 a0 a0 n0 Ha0 Ha0 Hn0) as (k & a & Hscan & Hk & Hfm).
  { by eapply first_min_upto_0. }
  { lia. }
  rewrite Ha0 in Hscan. apply first_min_upto_last in Hfm.
  pose proof (lookup_lt_Some _ _ _ Hk) as Hklt. rewrite <- En in Hklt.
  destruct (Hl _ _ Hk) as (na & Hna & Hpa & Hxa). rewrite <- En in Hpa, Hxa.
  destruct (lookup_lt_is_Some_2 l (sidx n k)) as [ap Hap]; [rewrite <- En; by apply sidx_lt |].
  destruct (lookup_lt_is_Some_2 l (pidx n k)) as [ax Hax]; [rewrite <- En; by apply pidx_lt |].
  destruct (Hl _ _ Hap) as (nap & Hnap & _).
  destruct (Hl _ _ Hax) as (nax & Hnax & _).
  rewrite Hap in Hpa. rewrite Hax in Hxa.
  assert (Hapa : ap ≠ a).
  { eapply nodup_neq; eauto. unfold sidx. case_decide; lia. }
  assert (Haxa : ax ≠ a).
  { eapply nodup_neq; eauto. unfold pidx. case_decide; lia. }
  unfold get_priority_thread, set_next, set_prev.
  rewrite !bool_decide_eq_false_2 by lia. rewrite !Hh.
  exec. rewrite Hscan. exec.
  assert (Hhead : (if ptr_eqb (Some a) (Some a0)
                   then Ok (Queue (prev na) (size q) (active q)) else Ok q)
                  = Ok (Queue (delete k l !! 0%nat) (size q) (active q))).
  { rewrite list_lookup_delete. destruct (decide (k = 0%nat)) as [-> | Hk0].
    - rewrite Ha0 in Hk. injection Hk as <-. rewrite ptr_eqb_true by done.
      rewrite Hpa, <- Hap. do 2 f_equal. unfold sidx. rewrite decide_False by lia.
      by rewrite decide_False by lia.
    - rewrite ptr_eqb_false.
      2:{ intros [= ->]. apply Hk0. eapply (NoDup_lookup l); eauto. }
      rewrite decide_True by lia. rewrite Ha0, <- Hh. by destruct q. }
  rewrite Hhead. exec. rewrite Hpa, Hxa. exec.
  assert (Hstore : ∃ nx, (<[ap := with_next (Some ax) nap]> h) !! ax = Some nx
                         ∧ data nx = data nax
                         ∧ next nx = (if decide (ax = ap) then Some ax else next nax)).
  { destruct (decide (ax = ap)) as [-> | Hne].
    - rewrite lookup_insert_eq. eexists. split; [done |].
      rewrite Hnap in Hnax. by injection Hnax as <-.
    - rewrite lookup_insert_ne by done. eauto. }
  destruct Hstore as (nx & Hnx & Hdx & Hxx).
  exec. rewrite Hxa, Hpa. rewrite (store_Some _ _ _ _ Hnx). exec.
  rewrite decr_ok by (unfold INT_MIN; simpl; lia). exec.
  eexists k, a, _. split; [done |]. split_and!; try done.
  - constructor; simpl.
    + eapply sublist_NoDup; [done | apply sublist_delete].
    + rewrite length_delete by eauto. lia.
    + done.
    + eapply (linked_delete h); eauto; [lia | by rewrite <- En .. |].
      intros b nb Hb Hba. destruct (decide (b = ax)) as [-> | Hbx].
      * rewrite lookup_insert_eq. eexists. split; [done |]. split; [done |].
        simpl. rewrite Hxx. rewrite Hnax in Hb. injection Hb as <-.
        by destruct (decide (ax = ap)).
      * rewrite lookup_insert_ne by done. destruct (decide (b = ap)) as [-> | Hbp].
        -- rewrite lookup_insert_eq. eexists. split; [done |].
           rewrite Hnap in Hb. by injection Hb as <-.
        -- rewrite lookup_insert_ne by done. eauto.
  - eapply (same_data_trans _ (<[ap := with_next (Some ax) nap]> h)).
    + eapply same_data_insert; [exact Hnap | reflexivity].
    + eapply same_data_insert; [exact Hnx | reflexivity].
  - intros b Hb.
    assert (ax ≠ b) by (intros ->; apply Hb; by eapply list_elem_of_lookup_2).
    assert (ap ≠ b) by (intros ->; apply Hb; by eapply list_elem_of_lookup_2).
    by heap_lookup.
Qed.

(** Select and remove keeps the ring invariant, whatever the size of
    the ring, and takes out the first record of smallest priority. *)
Lemma get_priority_ring q h l fuel :
  ring q h l → (length l ≤ fuel)%nat →
  match l with
  | [] => get_priority_thread fuel q h = Ok (None, q, h)
  | _ =>
      ∃ (k : nat) a q' h',
        get_priority_thread fuel q h = Ok (Some a, q', h')
        ∧ l !! k = Some a ∧ first_min h l k
        ∧ ring q' h' (delete k l)
        ∧ (delete k l = [] → head q' = None)
        ∧ size q' = size q - 1
        ∧ active q' = active q
        ∧ same_data h h'
        ∧ ∀ b, b ∉ l → h' !! b = h !! b
  end.
Proof.
  intros Hr Hfuel. pose proof (ring_size _ _ _ Hr) as Hsz.
  destruct l as [| a0 [| a1 l]]; simpl in Hsz.
  - unfold get_priority_thread. by rewrite bool_decide_eq_true_2 by done.
  - destruct Hr as [Hnd _ Hhd Hl]. destruct (Hl 0%nat a0 eq_refl) as (n0 & Hn0 & _).
    exists 0%nat, a0, (Queue None 0 (active q)), h.
    unfold get_priority_thread. rewrite bool_decide_eq_false_2 by lia.
    rewrite bool_decide_eq_true_2 by lia. rewrite Hhd by done. simpl.
    split_and!; try done.
    + exists a0, n0. split_and!; try done.
      intros [| j] b nb Hb Hnb; [| done]. injection Hb as <-.
      rewrite Hn0 in Hnb. injection Hnb as <-. lia.
    + constructor; simpl; try done. apply NoDup_nil_2.
    + lia.
  - destruct (get_priority_many q h (a0 :: a1 :: l) fuel) as (k & a & h' & Hg & Hk & Hfm & Hr' & Hd & Hf);
      [done | simpl; lia | done |].
    eexists k, a, _, h'. split_and!; try done.
    intros He. apply (f_equal length) in He. rewrite length_delete in He by eauto.
    simpl in He. lia.
Qed.

(** ** The invariant says what the specification says *)

Section tours.

(** A walk along one of the two pointers, in a heap and over a list of
    records that this pointer chains. *)
Variables (dir : uthread_t → ptr) (h : heap) (l : list loc).
Hypothesis Hchain : chain dir h l.

Lemma tour_app k1 k2 p vs1 r1 vs2 r2 :
  tour dir h k1 p = Ok (vs1, r1) → tour dir h k2 r1 = Ok (vs2, r2) →
  tour dir h (k1 + k2) p = Ok (vs1 ++ vs2, r2).
Proof.
  revert p vs1. induction k1 as [| k1 IH]; intros p vs1 H1 H2; simpl in *.
  - by simplify_eq.
  - destruct p as [a |]; [| done].
    destruct (load h (Some a)) as [n | | |]; simpl in *; try done.
    destruct (tour dir h k1 (dir n)) as [[vs r] | | |] eqn:Ht; simpl in *; try done.
    simplify_eq. by rewrite (IH _ _ Ht H2).
Qed.

(** Along a chain, [k] steps from position [i] pass the next [k]
    records, as long as they do not go past the end of the list. *)
Lemma tour_chain (k i : nat) :
  (i + k ≤ length l)%nat → (i < length l)%nat →
  tour dir h k (l !! i)
    = Ok (take k (drop i l), l !! (if decide (i + k = length l)%nat then 0 else i + k)%nat).
Proof.
  revert i. induction k as [| k IH]; intros i Hik Hi.
  - simpl. rewrite decide_False by lia. by replace (i + 0)%nat with i by lia.
  - destruct (lookup_lt_is_Some_2 l i Hi) as [a Ha].
    destruct (Hchain _ _ Ha) as (nd & Hnd & Hdir).
    rewrite Ha. simpl. exec. rewrite Hdir.
    rewrite (drop_S _ _ _ Ha). simpl.
    unfold sidx. case_decide as Hlast.
    + assert (k = 0%nat) as -> by lia. simpl. rewrite decide_True by lia. done.
    + rewrite IH by lia. simpl. do 3 f_equal. repeat case_decide; lia.
Qed.

(** A chain is a cycle: as many steps as it has records pass each of
    them once and lead back to the start. *)
Lemma chain_cycle a :
  a ∈ l → ∃ vs, tour dir h (length l) (Some a) = Ok (vs, Some a) ∧ vs ≡ₚ l.
Proof.
  intros Ha. apply list_elem_of_lookup_1 in Ha as [i Hi].
  pose proof (lookup_lt_Some _ _ _ Hi) as Hlt.
  exists (drop i l ++ take i l). split.
  - replace (length l) with ((length l - i) + i)%nat by lia.
    rewrite <- Hi. eapply tour_app.
    + rewrite tour_chain by (done || lia). rewrite decide_True by lia.
      rewrite take_ge by (rewrite length_drop; lia). done.
    + destruct (decide (i = 0%nat)) as [-> | Hi0]; [by rewrite take_0 |].
      rewrite tour_chain by (done || lia). rewrite decide_False by lia.
      by rewrite drop_0.
  - rewrite Permutation_app_comm. by rewrite take_drop.
Qed.

End tours.

Lemma linked_chain_prev h l : linked h l → chain prev h l.
Proof. intros Hl i a Hi. destruct (Hl _ _ Hi) as (nd & ? & ? & ?). eauto. Qed.

Lemma linked_chain_next h l : linked h l → chain next h (reverse l).
Proof.
  intros Hl i a Hi. apply reverse_lookup_Some in Hi as [Hi Hlt].
  destruct (Hl _ _ Hi) as (nd & Hnd & _ & Hx).
  exists nd. split; [done |]. rewrite Hx, length_reverse.
  rewrite reverse_lookup by (by apply sidx_lt). f_equal.
  unfold sidx, pidx. repeat case_decide; lia.
Qed.

Lemma ring_circular q h l : ring q h l → circular q h l.
Proof.
  intros [Hnd Hsz Hhd Hl]. split; [done |]. split.
  - intros Hne. destruct l as [| a l]; [done |]. exists a. split; [by apply Hhd |].
    apply list_elem_of_here.
  - intros a Ha.
    destruct (chain_cycle next h (reverse l) (linked_chain_next h l Hl) a)
      as (vn & Hvn & Hpn); [by apply elem_of_reverse |].
    destruct (chain_cycle prev h l (linked_chain_prev h l Hl) a)
      as (vp & Hvp & Hpp); [done |].
    rewrite length_reverse in Hvn. exists vn, vp. split_and!; try done.
    by rewrite Hpn, reverse_Permutation.
Qed.

(** ** Concrete registries *)

Example three_threads_registry :
  (w ← three_threads; Ok (threads w, thread_queue w)) = Ok (heap3, Some queue3).
Proof. vm_compute. reflexivity. Qed.

Example ring3 : ring queue3 heap3 ready3.
Proof.
  constructor; simpl; try done.
  - apply NoDup_ListNoDup. repeat constructor; simpl; intuition congruence.
  - intros [| [| [| i]]] a Hi; [| | | done]; injection Hi as <-;
      eexists; (split; [by vm_compute |]); done.
Qed.

(** ** Selection returns the smallest priority *)

(** C1. [get_priority_thread] on an empty queue ([size == 0]) returns a
    null pointer and changes nothing.  On a non-empty ring, given fuel
    for one pass, it returns a ready record whose priority is less than
    or equal to the priority of every ready record, and it removes
    exactly that record: the ring that is left is the old one without
    it, with every other record still there, and [size] is one less. *)
Theorem get_priority_thread_minimum (fuel : nat) q h (l : list loc) :
  ring q h l → (length l ≤ fuel)%nat →
  (size q = 0 → get_priority_thread fuel q h = Ok (None, q, h))
  ∧ (size q ≠ 0 →
     ∃ (k : nat) a na q' h',
       get_priority_thread fuel q h = Ok (Some a, q', h')
       ∧ l !! k = Some a ∧ h !! a = Some na
       ∧ (∀ b nb, b ∈ l → h !! b = Some nb → priority na ≤ priority nb)
       ∧ ring q' h' (delete k l)
       ∧ size q' = size q - 1
       ∧ l ≡ₚ (a :: delete k l)
       ∧ (a ∉ delete k l)
       ∧ same_data h h').
Proof.
  intros Hr Hfuel. pose proof (ring_size _ _ _ Hr) as Hsz.
  pose proof (get_priority_ring q h l fuel Hr Hfuel) as Hg. split.
  - intros H0. destruct l; [done | simpl in Hsz; lia].
  - intros Hne. destruct l as [| a0 l0]; [simpl in Hsz; lia |].
    remember (a0 :: l0) as l eqn:El.
    destruct Hg as (k & a & q' & h' & Hg & Hk & Hfm & Hr' & _ & Hs' & _ & Hd & _).
    destruct Hfm as (a' & na & Hk' & Hna & Hmin).
    rewrite Hk in Hk'. injection Hk' as <-.
    exists k, a, na, q', h'. split_and!; try done.
    + intros b nb Hb Hnb. apply list_elem_of_lookup_1 in Hb as [j Hj].
      by destruct (Hmin j b nb Hj Hnb).
    + by apply delete_Permutation.
    + pose proof (ring_nodup _ _ _ Hr) as Hnd.
      rewrite (delete_Permutation l k a Hk) in Hnd. by apply NoDup_cons in Hnd as [? _].
Qed.

Lemma get_priority_thread_minimum_witness :
  (size queue3 = 0 → get_priority_thread 3 queue3 heap3 = Ok (None, queue3, heap3))
  ∧ (size queue3 ≠ 0 →
     ∃ (k : nat) a na q' h',
       get_priority_thread 3 queue3 heap3 = Ok (Some a, q', h')
       ∧ ready3 !! k = Some a ∧ heap3 !! a = Some na
       ∧ (∀ b nb, b ∈ ready3 → heap3 !! b = Some nb → priority na ≤ priority nb)
       ∧ ring q' h' (delete k ready3)
       ∧ size q' = size queue3 - 1
       ∧ ready3 ≡ₚ (a :: delete k ready3)
       ∧ (a ∉ delete k ready3)
       ∧ same_data heap3 h').
Proof.
  apply (get_priority_thread_minimum 3 queue3 heap3 ready3 ring3). simpl. lia.
Defined.

(** ** The ring invariant is preserved *)

(** C6. In a registry that satisfies the ring invariant, the ready
    records are connected circularly in both directions: from any ready
    record, [size] steps along [next], and [size] steps along [prev],
    pass every ready record once and end on the record they started
    from.  Both registry operations keep it so: [add] of a live record
    that is not in the ring, and [get_priority_thread] given fuel for
    one pass, return a registry that satisfies the invariant again. *)
Theorem ring_invariant_preserved (fuel : nat) q h (l : list loc) :
  ring q h l →
  circular q h l
  ∧ (∀ item nd, h !! item = Some nd → item ∉ l → size q < INT_MAX →
       ∃ q' h', add q h (Some item) = Ok (q', h')
         ∧ ring q' h' (l ++ [item]) ∧ circular q' h' (l ++ [item]))
  ∧ ((length l ≤ fuel)%nat →
       ∃ r q' h' l', get_priority_thread fuel q h = Ok (r, q', h')
         ∧ ring q' h' l' ∧ circular q' h' l' ∧ l' ⊆ l
         ∧ Z.of_nat (length l') = Z.max 0 (size q - 1)).
Proof.
  intros Hr. split; [by apply ring_circular |]. split.
  - intros item nd Hit Hfresh Hmax.
    destruct (add_ring q h l item nd Hr Hit Hfresh Hmax) as (q' & h' & Ha & Hr' & _).
    exists q', h'. split_and!; [done | done |]. by apply ring_circular.
  - intros Hfuel. pose proof (ring_size _ _ _ Hr) as Hsz.
    pose proof (get_priority_ring q h l fuel Hr Hfuel) as Hg.
    destruct l as [| a0 l0].
    + exists None, q, h, []. split_and!; try done.
      * by apply ring_circular.
      * simpl in *. lia.
    + destruct Hg as (k & a & q' & h' & Hg & Hk & _ & Hr' & _ & Hs' & _).
      exists (Some a), q', h', (delete k (a0 :: l0)). split_and!; try done.
      * by apply ring_circular.
      * apply list_subseteq_delete.
      * rewrite length_delete by eauto. simpl in *. lia.
Qed.

Lemma ring_invariant_preserved_witness :
  circular queue3 heap3 ready3
  ∧ (∀ item nd, heap3 !! item = Some nd → item ∉ ready3 → size queue3 < INT_MAX →
       ∃ q' h', add queue3 heap3 (Some item) = Ok (q', h')
         ∧ ring q' h' (ready3 ++ [item]) ∧ circular q' h' (ready3 ++ [item]))
  ∧ ((length ready3 ≤ 3)%nat →
       ∃ r q' h' l', get_priority_thread 3 queue3 heap3 = Ok (r, q', h')
         ∧ ring q' h' l' ∧ circular q' h' l' ∧ l' ⊆ ready3
         ∧ Z.of_nat (length l') = Z.max 0 (size queue3 - 1)).
Proof.
  apply (ring_invariant_preserved 3 queue3 heap3 ready3 ring3).
Defined.

(** ** Spawn *)

Lemma ring_frame q h h' l :
  ring q h l → (∀ b, b ∈ l → h' !! b = h !! b) → ring q h' l.
Proof.
  intros [Hnd Hsz Hhd Hl] Hf. constructor; try done.
  intros i a Hi. rewrite Hf by (by eapply list_elem_of_lookup_2). by apply Hl.
Qed.

Lemma ring_live q h l b : ring q h l → b ∈ l → is_Some (h !! b).
Proof.
  intros Hr [i Hi]%list_elem_of_lookup_1.
  destruct (ring_linked _ _ _ Hr _ _ Hi) as (nd & Hnd & _). eauto.
Qed.

Lemma fresh_not_ready q h l t : ring q h l → h !! t = None → t ∉ l.
Proof.
  intros Hr Ht Hin. destruct (ring_live _ _ _ _ Hr Hin) as [n Hn]. congruence.
Qed.

Lemma same_data_context h h' b n :
  same_data h h' → h !! b = Some n →
  ∃ n', h' !! b = Some n' ∧ priority n' = priority n ∧ func n' = func n ∧ context n' = context n.
Proof.
  intros Hs Hb. destruct (same_data_lookup _ _ _ _ Hs Hb) as (n' & Hn' & Hd).
  exists n'. unfold data in Hd. by simplify_eq.
Qed.

(** A call whose three allocations succeed, in a scheduler that is in
    order, enters the new record at the end of the ring and returns
    0. *)
Lemma uthread_create_enqueues w q l t junk c s f prio :
  scheduler w q l → size q < INT_MAX → threads w !! t = None →
  ∃ q' h',
    uthread_create w (Mallocs (Some (t, junk)) (Some c) (Some s)) f prio
      = Ok (World h' (<[c := Ucontext (AtEntry f) (Some s) STACK_SIZE]> (contexts w))
              ({[s]} ∪ stacks w) (Some q') (Some 1),
            Returns 0)
    ∧ scheduler (World h' (<[c := Ucontext (AtEntry f) (Some s) STACK_SIZE]> (contexts w))
                   ({[s]} ∪ stacks w) (Some q') (Some 1))
        q' (l ++ [t])
    ∧ active q' = active q
    ∧ size q' = size q + 1
    ∧ (∃ n, h' !! t = Some n ∧ priority n = prio ∧ func n = f ∧ context n = Some c)
    ∧ (∀ b, b ≠ t → data <$> h' !! b = data <$> threads w !! b)
    ∧ (∀ b, b ∉ l → b ≠ t → h' !! b = threads w !! b).
Proof.
  intros [Hq Hlock Hr Hctx Hint] Hmax Ht.
  pose proof (fresh_not_ready _ _ _ _ Hr Ht) as Hfresh.
  unfold uthread_create, set_priority. cbn [m_thread m_context m_stack].
  exec. cbn [func with_context with_func with_priority priority context next prev].
  unfold sem_wait. cbn [lock]. rewrite Hlock.
  rewrite bool_decide_eq_true_2 by lia. cbn [mbind result_bind].
  unfold the_queue. cbn [thread_queue]. rewrite Hq. cbn [mbind result_bind threads].
  set (h0 := <[t := with_context _ _]> _).
  assert (Hh0 : ∀ b, b ≠ t → h0 !! b = threads w !! b).
  { intros b Hb. unfold h0. by rewrite !lookup_insert_ne by done. }
  assert (Hr0 : ring q h0 l).
  { eapply ring_frame; [done |]. intros b Hb. apply Hh0. by intros ->. }
  assert (Ht0 : ∃ n0, h0 !! t = Some n0 ∧ priority n0 = prio ∧ func n0 = f ∧ context n0 = Some c).
  { unfold h0. rewrite lookup_insert_eq. eauto. }
  destruct Ht0 as (n0 & Ht0 & Hp0 & Hf0 & Hc0).
  destruct (add_ring q h0 l t n0 Hr0 Ht0 Hfresh Hmax)
    as (q' & h' & Ha & Hr' & Hd & Hf & Hact & Hsz & _).
  rewrite Ha. cbn [mbind result_bind]. unfold sem_post, put. cbn [lock].
  exists q', h'.
  destruct (same_data_context _ _ t _ Hd Ht0) as (n' & Hn' & ? & ? & ?).
  split_and!; try done.
  - constructor; cbn [threads contexts thread_queue lock]; try done.
    + intros b [Hb | ->%list_elem_of_singleton]%elem_of_app.
      * destruct (Hctx _ Hb) as (cb & nb & Hnb & Hcb & Hlive).
        assert (b ≠ t) by (by intros ->).
        rewrite <- Hh0 in Hnb by done.
        destruct (same_data_context _ _ _ _ Hd Hnb) as (nb' & Hnb' & _ & _ & Hc').
        exists cb, nb'. cbn [threads contexts]. split_and!; [done | congruence |].
        apply lookup_insert_is_Some. destruct (decide (c = cb)); auto.
      * exists c, n'. cbn [threads contexts]. split_and!; [done | congruence |].
        rewrite lookup_insert_eq. eauto.
    + lia.
  - exists n'. split_and!; congruence.
  - intros b Hb. by rewrite Hd, Hh0.
  - intros b Hb Hbt. by rewrite Hf, Hh0.
Qed.

(** A call whose stack allocation fails after the other two have
    succeeded ends in [makecontext] on a null stack. *)
Lemma uthread_create_null_stack w t junk c f prio :
  uthread_create w (Mallocs (Some (t, junk)) (Some c) None) f prio = Fault.
Proof. unfold uthread_create, set_priority. cbn [m_thread m_context m_stack]. by exec. Qed.

Example system_init_started : system_init boot (Some zeroed) = Ok started.
Proof. reflexivity. Qed.

Example scheduler_started : scheduler started (Queue None 0 None) [].
Proof.
  constructor; try done.
  - constructor; try done. apply NoDup_nil_2.
  - intros b Hb. by apply not_elem_of_nil in Hb.
Qed.

(** C3. What [uthread_create] does with each allocation outcome, in a
    scheduler that is in order.  When the record cannot be allocated it
    returns -1 and nothing has changed.  When the context cannot be
    allocated it returns -1 and the registry is unchanged.  When the
    three blocks are allocated it enters the record in the ring and
    returns 0.  When the stack cannot be allocated (and the other two
    blocks can) it does not return -1: the result of that [malloc] is
    not tested, the null pointer is stored as the stack of the context
    and [makecontext] is called on it, which is undefined. *)
Theorem uthread_create_allocation_failures w q (l : list loc) t junk c f prio :
  scheduler w q l → size q < INT_MAX → threads w !! t = None →
  (∀ mc ms, uthread_create w (Mallocs None mc ms) f prio = Ok (w, Returns (-1)))
  ∧ (∀ ms, ∃ w',
       uthread_create w (Mallocs (Some (t, junk)) None ms) f prio = Ok (w', Returns (-1))
       ∧ scheduler w' q l
       ∧ ∀ b, b ≠ t → threads w' !! b = threads w !! b)
  ∧ (∀ s, ∃ w' q',
       uthread_create w (Mallocs (Some (t, junk)) (Some c) (Some s)) f prio = Ok (w', Returns 0)
       ∧ scheduler w' q' (l ++ [t])
       ∧ size q' = size q + 1)
  ∧ uthread_create w (Mallocs (Some (t, junk)) (Some c) None) f prio = Fault.
Proof.
  intros Hs Hmax Ht. split; [done |]. split; [| split].
  - intros ms. destruct Hs as [Hq Hlock Hr Hctx Hint].
    pose proof (fresh_not_ready _ _ _ _ Hr Ht) as Hfresh.
    unfold uthread_create, set_priority. cbn [m_thread m_context m_stack]. exec.
    eexists. split; [done |].
    set (h1 := <[t := with_context None _]> _).
    assert (Hf : ∀ b, b ≠ t → h1 !! b = threads w !! b).
    { intros b Hb. unfold h1. by rewrite !lookup_insert_ne by done. }
    split; [| done]. constructor; cbn [threads contexts thread_queue lock]; try done.
    + eapply ring_frame; [done |]. intros b Hb. apply Hf. by intros ->.
    + intros b Hb. destruct (Hctx _ Hb) as (cb & nb & Hnb & Hcb & Hlive).
      exists cb, nb. cbn [threads contexts]. split_and!; try done.
      rewrite Hf; [done |]. by intros ->.
  - intros s. destruct (uthread_create_enqueues w q l t junk c s f prio Hs Hmax Ht)
      as (q' & h' & Hc & Hs' & _ & Hsz & _).
    eexists _, q'. split_and!; [exact Hc | done | done].
  - apply uthread_create_null_stack.
Qed.

Lemma uthread_create_allocation_failures_witness :
  (∀ mc ms, uthread_create started (Mallocs None mc ms) 100%positive 5
            = Ok (started, Returns (-1)))
  ∧ (∀ ms, ∃ w',
       uthread_create started (Mallocs (Some (10%positive, junk0)) None ms) 100%positive 5
         = Ok (w', Returns (-1))
       ∧ scheduler w' (Queue None 0 None) []
       ∧ ∀ b, b ≠ 10%positive → threads w' !! b = threads started !! b)
  ∧ (∀ s, ∃ w' q',
       uthread_create started (Mallocs (Some (10%positive, junk0)) (Some 11%positive) (Some s))
         100%positive 5 = Ok (w', Returns 0)
       ∧ scheduler w' q' ([] ++ [10%positive])
       ∧ size q' = size (Queue None 0 None) + 1)
  ∧ uthread_create started (Mallocs (Some (10%positive, junk0)) (Some 11%positive) None)
      100%positive 5 = Fault.
Proof.
  apply (uthread_create_allocation_failures started (Queue None 0 None) []
           10%positive junk0 11%positive 100%positive 5 scheduler_started);
    [by vm_compute | reflexivity].
Defined.

(** ** Yield *)

(** C4. With an empty registry ([size == 0]) [uthread_yield] returns -1
    to its caller, without any transfer of control, and leaves the whole
    memory as it found it: [size] is still 0, [active] and everything
    else are unchanged, and the semaphore is free again. *)
Theorem uthread_yield_empty (fuel : nat) w q v prio :
  thread_queue w = Some q → size q = 0 → lock w = Some v → 0 < v →
  uthread_yield fuel w prio = Ok (w, Returns (-1)).
Proof.
  intros Hq Hsz Hlock Hv. destruct w as [h cs ss tq lk]. simpl in *. subst tq lk.
  unfold uthread_yield, sem_wait, sem_post, the_queue. simpl.
  rewrite bool_decide_eq_true_2 by done. simpl.
  rewrite bool_decide_eq_true_2 by done. simpl.
  by replace (v - 1 + 1) with v by lia.
Qed.

Lemma uthread_yield_empty_witness :
  uthread_yield 0 started 7 = Ok (started, Returns (-1)).
Proof.
  apply (uthread_yield_empty 0 started (Queue None 0 None) 1 7); [reflexivity .. | lia].
Defined.

Lemma ring_active q h l x : ring q h l → ring (Queue (head q) (size q) x) h l.
Proof. intros [? ? ? ?]. by constructor. Qed.

Lemma first_min_frame h h' (l : list loc) k :
  (∀ b, b ∈ l → h' !! b = h !! b) → first_min h' l k → first_min h l k.
Proof.
  intros Hf (a & nd & Ha & Hnd & Hmin). exists a, nd. split_and!; try done.
  - rewrite <- Hf; [done |]. by eapply list_elem_of_lookup_2.
  - intros j b nb Hj Hb. apply (Hmin j b nb Hj).
    rewrite Hf; [done |]. by eapply list_elem_of_lookup_2.
Qed.

(** A successful yield: the caller's priority is set, then the first
    record of smallest priority among the ready ones is taken out, then
    the caller is put back at the end of the ring, and control goes to
    the record taken out. *)
Lemma uthread_yield_switches (fuel : nat) w q (l : list loc) a prio :
  scheduler w q l → running w q l a → l ≠ [] → (length l ≤ fuel)%nat →
  ∃ (k : nat) s ca cs w' q',
    uthread_yield fuel w prio = Ok (w', Swapcontext ca cs)
    ∧ l !! k = Some s ∧ first_min (threads w) l k
    ∧ has_context w a ca ∧ has_context w s cs
    ∧ scheduler w' q' (delete k l ++ [a])
    ∧ running w' q' (delete k l ++ [a]) s
    ∧ size q' = size q
    ∧ (∃ na, threads w' !! a = Some na ∧ priority na = prio)
    ∧ (∀ b, b ≠ a → data <$> threads w' !! b = data <$> threads w !! b).
Proof.
  intros [Hq Hlock Hr Hctx Hint] [Hact Hout (ca & na & Hna & Hca & Hlive)] Hne Hfuel.
  pose proof (ring_size _ _ _ Hr) as Hsz.
  assert (Hpos : size q ≠ 0) by (destruct l; [done | simpl in Hsz; lia]).
  destruct w as [h cs0 ss tq lk]. cbn [threads contexts stacks thread_queue lock] in *.
  subst tq lk.
  unfold uthread_yield, sem_wait, the_queue, set_priority.
  cbn [lock thread_queue threads]. rewrite bool_decide_eq_true_2 by lia.
  cbn [mbind result_bind thread_queue threads].
  rewrite bool_decide_eq_false_2 by done. rewrite Hact. exec.
  set (h1 := <[a := with_priority prio na]> h).
  assert (Hh1 : ∀ b, b ≠ a → h1 !! b = h !! b).
  { intros b Hb. unfold h1. by rewrite lookup_insert_ne by done. }
  assert (Hin : ∀ b, b ∈ l → b ≠ a) by (by intros b Hb ->).
  assert (Hr1 : ring q h1 l).
  { eapply ring_frame; [done |]. intros b Hb. apply Hh1. by apply Hin. }
  pose proof (get_priority_ring q h1 l fuel Hr1 Hfuel) as Hg.
  destruct l as [| a0 l0]; [done |]. remember (a0 :: l0) as l eqn:El.
  destruct Hg as (k & s & q1 & h2 & Hg & Hk & Hfm & Hr2 & _ & Hsz1 & Hact1 & Hd12 & Hf12).
  rewrite Hg. cbn [mbind result_bind]. rewrite Hact1, Hact.
  assert (Hs : s ∈ l) by (by eapply list_elem_of_lookup_2).
  assert (Ha2 : h2 !! a = Some (with_priority prio na)).
  { rewrite Hf12 by done. unfold h1. apply lookup_insert_eq. }
  assert (Hout2 : a ∉ delete k l).
  { intros Hin'. apply Hout. by eapply list_elem_of_delete_inv. }
  destruct (add_ring q1 h2 (delete k l) a _ Hr2 Ha2 Hout2)
    as (q2 & h3 & Ha & Hr3 & Hd23 & Hf23 & Hact2 & Hsz2 & _); [lia |].
  rewrite Ha. cbn [mbind result_bind]. unfold sem_post, put, context_of.
  cbn [lock mbind result_bind threads contexts].
  assert (Hd13 : same_data h1 h3) by (by eapply same_data_trans).
  destruct (same_data_context _ _ a _ Hd13 (lookup_insert_eq _ _ _))
    as (na3 & Hna3 & Hp3 & _ & Hc3).
  destruct (Hctx _ Hs) as (cs & ns & Hns & Hcs & Hlives).
  cbn [threads contexts] in Hns, Hlives.
  assert (Hns1 : h1 !! s = Some ns) by (rewrite Hh1; [done | by apply Hin]).
  destruct (same_data_context _ _ s _ Hd13 Hns1) as (ns3 & Hns3 & _ & _ & Hcs3).
  exec. rewrite Hc3. cbn [context with_priority]. rewrite Hca.
  destruct Hlive as [ua Hua]. destruct Hlives as [us Hus].
  cbn [contexts] in Hua. rewrite Hua. exec. rewrite Hcs3, Hcs, Hus.
  cbn [mbind result_bind].
  eexists k, s, ca, cs, _, (Queue (head q2) (size q2) (Some s)).
  split; [reflexivity |]. split_and!; try done.
  - eapply first_min_frame; [| exact Hfm]. intros b Hb. apply Hh1. by apply Hin.
  - exists na. by split_and!.
  - exists ns. by split_and!.
  - constructor; cbn [threads contexts thread_queue lock size]; try done.
    + by apply ring_active.
    + intros b Hb. assert (Hb' : ∃ cb nb, h1 !! b = Some nb ∧ context nb = Some cb
                                           ∧ is_Some (cs0 !! cb)).
      { apply elem_of_app in Hb as [Hb | ->%list_elem_of_singleton].
        - apply list_elem_of_delete_inv in Hb.
          destruct (Hctx _ Hb) as (cb & nb & Hnb & Hcb & Hl).
          exists cb, nb. rewrite Hh1 by (by apply Hin). by split_and!.
        - exists ca, (with_priority prio na). unfold h1. rewrite lookup_insert_eq.
          by split_and!. }
      destruct Hb' as (cb & nb & Hnb & Hcb & Hl).
      destruct (same_data_context _ _ b _ Hd13 Hnb) as (nb3 & Hnb3 & _ & _ & Hcb3).
      exists cb, nb3. cbn [threads contexts]. split_and!; [done | congruence |].
      apply lookup_alter_is_Some. done.
    + lia.
  - constructor; cbn [active]; try done.
    + intros [Hin' | Heq%list_elem_of_singleton]%elem_of_app; [| by apply (Hin s)].
      pose proof (ring_nodup _ _ _ Hr) as Hnd.
      rewrite (delete_Permutation l k s Hk) in Hnd. by apply NoDup_cons in Hnd as [? _].
    + exists cs, ns3. cbn [threads contexts]. split_and!; [done | congruence |].
      apply lookup_alter_is_Some. eauto.
  - cbn [size]. lia.
  - cbn [threads]. eauto.
  - intros b Hb. cbn [threads]. by rewrite Hd13, Hh1.
Qed.

Lemma first_min_unique h (l : list loc) k k' :
  first_min h l k → first_min h l k' → k = k'.
Proof.
  intros (a & na & Ha & Hna & Hmin) (a' & na' & Ha' & Hna' & Hmin').
  destruct (Hmin k' a' na' Ha' Hna') as [Hle Hlt].
  destruct (Hmin' k a na Ha Hna) as [Hle' Hlt'].
  destruct (decide (k < k')%nat); [specialize (Hlt' ltac:(done)); lia |].
  destruct (decide (k' < k)%nat); [specialize (Hlt ltac:(done)); lia |]. lia.
Qed.

(** C5, as the code has it.  A successful [uthread_yield] stores the
    new priority in the caller's record before the record is put back
    in the ring, and the caller is ready again, last in the ring, with
    that priority.  But the selection is made before the caller is put
    back, among the records that were ready when the call was made: the
    record that runs next is the first record of smallest priority
    among those, it is never the caller, and it is the same whatever
    priority the caller asks for.  The new priority counts from the
    next selection on. *)
Theorem uthread_yield_selects_another (fuel : nat) w q (l : list loc) a prio :
  scheduler w q l → running w q l a → l ≠ [] → (length l ≤ fuel)%nat →
  ∃ (k : nat) s ca cs w' q',
    uthread_yield fuel w prio = Ok (w', Swapcontext ca cs)
    ∧ l !! k = Some s ∧ first_min (threads w) l k
    ∧ s ≠ a
    ∧ has_context w a ca ∧ has_context w s cs
    ∧ thread_queue w' = Some q' ∧ active q' = Some s
    ∧ ring q' (threads w') (delete k l ++ [a])
    ∧ priority_of w' a = Some prio
    ∧ ∀ prio', ∃ ca' w'',
        uthread_yield fuel w prio' = Ok (w'', Swapcontext ca' cs) ∧ active_of w'' = Some s.
Proof.
  intros Hs Hrun Hne Hfuel.
  destruct (uthread_yield_switches fuel w q l a prio Hs Hrun Hne Hfuel)
    as (k & s & ca & cs & w' & q' & Hy & Hk & Hfm & Hca & Hcs & Hs' & Hrun' & _ & Hp & _).
  exists k, s, ca, cs, w', q'. split_and!; try done.
  - intros ->. apply (run_out _ _ _ _ Hrun). by eapply list_elem_of_lookup_2.
  - by destruct Hs'.
  - by destruct Hrun'.
  - by destruct Hs'.
  - destruct Hp as (na & Hna & Hpna). unfold priority_of. by rewrite Hna, <- Hpna.
  - intros prio'.
    destruct (uthread_yield_switches fuel w q l a prio' Hs Hrun Hne Hfuel)
      as (k2 & s2 & ca2 & cs2 & w2 & q2 & Hy2 & Hk2 & Hfm2 & _ & Hcs2 & Hs2 & Hrun2 & _).
    assert (k2 = k) as -> by (by eapply first_min_unique).
    rewrite Hk in Hk2. injection Hk2 as <-.
    assert (cs2 = cs) as ->.
    { destruct Hcs as (n1 & Hn1 & Hc1 & _), Hcs2 as (n2 & Hn2 & Hc2 & _). congruence. }
    exists ca2, w2. split; [done |]. unfold active_of.
    rewrite (sch_queue _ _ _ Hs2). simpl. by destruct Hrun2.
Qed.

Example two_threads_world : two_threads = Ok world_ab.
Proof. vm_compute. reflexivity. Qed.

Example scheduler_ab : scheduler world_ab queue_ab [20%positive].
Proof.
  constructor; try done.
  - constructor; try done.
    + apply NoDup_singleton.
    + intros [| i] a Hi; [| done]. injection Hi as <-.
      eexists. split; [by vm_compute |]. done.
  - intros b ->%list_elem_of_singleton. exists 21%positive. eexists.
    split_and!; [vm_compute; reflexivity | reflexivity | vm_compute; eauto].
Qed.

Example running_ab : running world_ab queue_ab [20%positive] 10%positive.
Proof.
  constructor; try done.
  - intros Hin%list_elem_of_singleton. done.
  - exists 11%positive. eexists. split_and!; [vm_compute; reflexivity | reflexivity | vm_compute; eauto].
Qed.

Lemma uthread_yield_selects_another_witness :
  ∃ (k : nat) s ca cs w' q',
    uthread_yield 1 world_ab 1 = Ok (w', Swapcontext ca cs)
    ∧ [20%positive] !! k = Some s ∧ first_min (threads world_ab) [20%positive] k
    ∧ s ≠ 10%positive
    ∧ has_context world_ab 10%positive ca ∧ has_context world_ab s cs
    ∧ thread_queue w' = Some q' ∧ active q' = Some s
    ∧ ring q' (threads w') (delete k [20%positive] ++ [10%positive])
    ∧ priority_of w' 10%positive = Some 1
    ∧ ∀ prio', ∃ ca' w'',
        uthread_yield 1 world_ab prio' = Ok (w'', Swapcontext ca' cs) ∧ active_of w'' = Some s.
Proof.
  apply (uthread_yield_selects_another 1 world_ab queue_ab [20%positive] 10%positive 1
           scheduler_ab running_ab); [done | simpl; lia].
Defined.

(** C5 as stated fails.  Thread A, running at priority 9 while B is
    ready at priority 5, yields with new priority 1.  A's record holds
    priority 1, the smallest priority there is, when the selection is
    made, and yet B is selected and becomes [active]: A is not in the
    ring at that moment. *)
Lemma yield_to_itself_counterexample :
  two_threads = Ok world_ab
  ∧ active_of world_ab = Some 10%positive
  ∧ priority_of world_ab 20%positive = Some 5
  ∧ ('(w', c) ← uthread_yield 1 world_ab 1;
     Ok (c, active_of w', priority_of w' 10%positive, priority_of w' 20%positive))
    = Ok (Swapcontext 11%positive 21%positive, Some 20%positive, Some 1, Some 5).
Proof. split_and!; vm_compute; reflexivity. Qed.

(** ** Exit *)

(** Exit with other threads ready: the first record of smallest
    priority is taken out of the ring and made [active], the block of
    the exiting record is freed, and control goes to the context of the
    record taken out.  No [ucontext_t] and no stack is freed. *)
Lemma uthread_exit_switches (fuel : nat) w q (l : list loc) a :
  scheduler w q l → running w q l a → l ≠ [] → (length l ≤ fuel)%nat →
  ∃ (k : nat) s cs w' q',
    uthread_exit fuel w = Ok (w', Setcontext cs)
    ∧ l !! k = Some s ∧ first_min (threads w) l k ∧ has_context w s cs
    ∧ scheduler w' q' (delete k l)
    ∧ running w' q' (delete k l) s
    ∧ threads w' !! a = None
    ∧ contexts w' = contexts w
    ∧ stacks w' = stacks w.
Proof.
  intros [Hq Hlock Hr Hctx Hint] [Hact Hout (ca & na & Hna & Hca & Hlive)] Hne Hfuel.
  pose proof (ring_size _ _ _ Hr) as Hsz.
  assert (Hpos : size q ≠ 0) by (destruct l; [done | simpl in Hsz; lia]).
  destruct w as [h cs0 ss tq lk]. cbn [threads contexts stacks thread_queue lock] in *.
  subst tq lk.
  unfold uthread_exit, sem_wait, the_queue.
  cbn [lock thread_queue threads]. rewrite bool_decide_eq_true_2 by lia.
  cbn [mbind result_bind thread_queue threads].
  rewrite bool_decide_eq_false_2 by done.
  assert (Hin : ∀ b, b ∈ l → b ≠ a) by (by intros b Hb ->).
  pose proof (get_priority_ring q h l fuel Hr Hfuel) as Hg.
  destruct l as [| a0 l0]; [done |]. remember (a0 :: l0) as l eqn:El.
  destruct Hg as (k & s & q1 & h2 & Hg & Hk & Hfm & Hr2 & _ & Hsz1 & Hact1 & Hd12 & Hf12).
  rewrite Hg. cbn [mbind result_bind]. rewrite Hact1, Hact.
  assert (Hs : s ∈ l) by (by eapply list_elem_of_lookup_2).
  assert (Ha2 : h2 !! a = Some na) by (by rewrite Hf12).
  erewrite free_record by exact Ha2. cbn [mbind result_bind].
  unfold sem_post, put, context_of.
  cbn [lock mbind result_bind threads contexts stacks thread_queue].
  destruct (Hctx _ Hs) as (cs & ns & Hns & Hcs & [us Hus]).
  cbn [threads contexts] in Hns, Hus.
  destruct (same_data_context _ _ s _ Hd12 Hns) as (ns2 & Hns2 & _ & _ & Hcs2).
  assert (Hsa : a ≠ s) by (intros ->; by apply Hout).
  erewrite load_Some by (rewrite lookup_delete_ne by done; exact Hns2).
  cbn [mbind result_bind]. rewrite Hcs2, Hcs, Hus.
  eexists k, s, cs, _, (Queue (head q1) (size q1) (Some s)).
  split; [reflexivity |]. split_and!; try done.
  - exists ns. by split_and!.
  - constructor; cbn [threads contexts thread_queue lock size]; try done.
    + apply ring_active. eapply ring_frame; [done |].
      intros b Hb%list_elem_of_delete_inv. apply lookup_delete_ne.
      apply not_eq_sym. by apply Hin.
    + intros b Hb%list_elem_of_delete_inv.
      destruct (Hctx _ Hb) as (cb & nb & Hnb & Hcb & Hl).
      cbn [threads contexts] in Hnb, Hl.
      destruct (same_data_context _ _ b _ Hd12 Hnb) as (nb2 & Hnb2 & _ & _ & Hcb2).
      exists cb, nb2. cbn [threads contexts]. split_and!; [| congruence | done].
      rewrite lookup_delete_ne; [done |]. apply not_eq_sym. by apply Hin.
    + lia.
  - constructor; cbn [active]; try done.
    + pose proof (ring_nodup _ _ _ Hr) as Hnd.
      rewrite (delete_Permutation l k s Hk) in Hnd. by apply NoDup_cons in Hnd as [? _].
    + exists cs, ns2. cbn [threads contexts]. split_and!; [| congruence | eauto].
      by rewrite lookup_delete_ne.
  - cbn [threads]. apply lookup_delete_eq.
Qed.

(** C7, as the code has it.  When other threads are ready,
    [uthread_exit] takes the first record of smallest priority out of
    the ring, frees the block of the exiting record and nothing else,
    makes the selected record [active] and ends in [setcontext] on the
    context of the selected record, which does not give control back.
    The context of the exiting record, and the stack that goes with
    it, are still allocated afterwards. *)
Theorem uthread_exit_frees_record_only (fuel : nat) w q (l : list loc) a ca :
  scheduler w q l → running w q l a → has_context w a ca →
  l ≠ [] → (length l ≤ fuel)%nat →
  ∃ (k : nat) s cs w' q',
    uthread_exit fuel w = Ok (w', Setcontext cs)
    ∧ l !! k = Some s ∧ first_min (threads w) l k ∧ has_context w s cs
    ∧ thread_queue w' = Some q' ∧ active q' = Some s
    ∧ ring q' (threads w') (delete k l)
    ∧ threads w' !! a = None
    ∧ contexts w' !! ca = contexts w !! ca ∧ is_Some (contexts w' !! ca)
    ∧ stacks w' = stacks w.
Proof.
  intros Hs Hrun Hca Hne Hfuel.
  destruct (uthread_exit_switches fuel w q l a Hs Hrun Hne Hfuel)
    as (k & s & cs & w' & q' & He & Hk & Hfm & Hcs & Hs' & Hrun' & Hfree & Hctx & Hst).
  exists k, s, cs, w', q'. split_and!; try done.
  - by destruct Hs'.
  - by destruct Hrun'.
  - by destruct Hs'.
  - by rewrite Hctx.
  - rewrite Hctx. by destruct Hca as (n & _ & _ & ?).
Qed.

Lemma uthread_exit_frees_record_only_witness :
  ∃ (k : nat) s cs w' q',
    uthread_exit 1 world_ab = Ok (w', Setcontext cs)
    ∧ [20%positive] !! k = Some s ∧ first_min (threads world_ab) [20%positive] k
    ∧ has_context world_ab s cs
    ∧ thread_queue w' = Some q' ∧ active q' = Some s
    ∧ ring q' (threads w') (delete k [20%positive])
    ∧ threads w' !! 10%positive = None
    ∧ contexts w' !! 11%positive = contexts world_ab !! 11%positive
    ∧ is_Some (contexts w' !! 11%positive)
    ∧ stacks w' = stacks world_ab.
Proof.
  apply (uthread_exit_frees_record_only 1 world_ab queue_ab [20%positive]
           10%positive 11%positive scheduler_ab running_ab).
  - eexists. split_and!; [vm_compute; reflexivity | reflexivity | vm_compute; eauto].
  - done.
  - simpl. lia.
Defined.

(** C7 as stated fails: after A has exited to B, the block of A's
    record is gone, but A's context (block 11) and stack (block 12) are
    still allocated. *)
Lemma exit_keeps_context_counterexample :
  ('(w', c) ← uthread_exit 1 world_ab;
   Ok (c, active_of w', threads w' !! 10%positive, contexts w' !! 11%positive,
       bool_decide (12%positive ∈ stacks w')))
  = Ok (Setcontext 21%positive, Some 20%positive, None,
        Some (Ucontext (AtEntry 100%positive) (Some 12%positive) STACK_SIZE), true).
Proof. vm_compute. reflexivity. Qed.

(** C8, as the code has it.  When no other thread is ready ([size] is
    0 and [head] is null, as it is once the ring has been emptied),
    [uthread_exit] releases the semaphore, frees the block of the
    active record and the registry itself, destroys the semaphore and
    ends the process with status 0, whatever the fuel: the teardown
    loop has nothing to do.  The context and the stack of the active
    record are not freed: they are still allocated when the process
    exits. *)
Theorem uthread_exit_last (fuel : nat) w q a ca :
  thread_queue w = Some q → lock w = Some 1 →
  size q = 0 → head q = None → active q = Some a → has_context w a ca →
  uthread_exit fuel w
    = Ok (World (delete a (threads w)) (contexts w) (stacks w) None None, Exits 0)
  ∧ is_Some (contexts w !! ca).
Proof.
  intros Hq Hlock Hsz Hhd Hact (na & Hna & Hca & Hlive). split; [| done].
  destruct w as [h cs ss tq lk]. cbn [threads contexts stacks thread_queue lock] in *.
  subst tq lk.
  unfold uthread_exit, sem_wait, sem_post, sem_destroy, cleanup_queue, the_queue.
  cbn [lock thread_queue threads mbind result_bind].
  rewrite bool_decide_eq_true_2 by lia. cbn [mbind result_bind thread_queue].
  rewrite bool_decide_eq_true_2 by done. cbn [mbind result_bind lock thread_queue threads].
  rewrite Hhd, Hact. destruct fuel; cbn [cleanup_walk mbind result_bind];
    unfold free; cbn [threads]; rewrite Hna; reflexivity.
Qed.

Example one_thread_world : one_thread = Ok world_a.
Proof. vm_compute. reflexivity. Qed.

Lemma uthread_exit_last_witness :
  uthread_exit 0 world_a
    = Ok (World (delete 10%positive (threads world_a)) (contexts world_a) (stacks world_a)
            None None, Exits 0)
  ∧ is_Some (contexts world_a !! 11%positive).
Proof.
  apply (uthread_exit_last 0 world_a (Queue None 0 (Some 10%positive)) 10%positive 11%positive);
    try reflexivity.
  eexists. split_and!; [vm_compute; reflexivity | reflexivity | vm_compute; eauto].
Defined.

(** C8 as stated fails: when A, running alone, exits, the process ends
    with status 0, the registry and A's record are freed and the
    semaphore is destroyed, but A's context (block 11) and stack
    (block 12) have not been released. *)
Lemma exit_last_keeps_context_counterexample :
  (w ← one_thread;
   '(w', c) ← uthread_exit 0 w;
   Ok (c, thread_queue w', lock w', threads w' !! 10%positive, contexts w' !! 11%positive,
       bool_decide (12%positive ∈ stacks w')))
  = Ok (Exits 0, None, None, None,
        Some (Ucontext (AtEntry 100%positive) (Some 12%positive) STACK_SIZE), true).
Proof. vm_compute. reflexivity. Qed.

(** ** Teardown *)

(** In a ring no [next] pointer is null: it leads to a ready record. *)
Lemma ring_next_not_null q h (l : list loc) a :
  ring q h l → a ∈ l → ∃ n b, h !! a = Some n ∧ next n = Some b ∧ b ∈ l.
Proof.
  intros [_ _ _ Hl] [i Hi]%list_elem_of_lookup_1.
  pose proof (lookup_lt_Some _ _ _ Hi) as Hlt.
  destruct (Hl _ _ Hi) as (n & Hn & _ & Hx).
  destruct (lookup_lt_is_Some_2 l (pidx (length l) i)) as [b Hb]; [by apply pidx_lt |].
  exists n, b. split_and!; [done | congruence | by eapply list_elem_of_lookup_2].
Qed.

(** The walk, arrived at position [S i] after it has freed the head and
    the records behind position [S i]: it frees its way down to position
    1, comes back to the head, which is freed, and reads it. *)
Lemma cleanup_walk_tail h (l : list loc) a0 :
  NoDup l → linked h l → l !! 0%nat = Some a0 →
  ∀ (i : nat) (fuel : nat) w',
    (S i < length l)%nat →
    threads w' !! a0 = None →
    (∀ (j : nat) b, (1 ≤ j ≤ S i)%nat → l !! j = Some b → threads w' !! b = h !! b) →
    cleanup_walk fuel w' (l !! S i) = if decide (fuel ≤ S i)%nat then Timeout else Fault.
Proof.
  intros Hnd Hl Ha0. induction i as [| i IH]; intros fuel w' Hlt Hfreed Hsame.
  - destruct (lookup_lt_is_Some_2 l 1 Hlt) as [b Hb]. rewrite Hb.
    destruct (Hl _ _ Hb) as (nb & Hnb & _ & Hx).
    unfold pidx in Hx. rewrite decide_False in Hx by lia. simpl in Hx. rewrite Ha0 in Hx.
    assert (Hb' : threads w' !! b = Some nb) by (rewrite (Hsame 1%nat b) by (done || lia); done).
    destruct fuel as [| fuel]; [done |]. simpl.
    erewrite load_Some by exact Hb'.
    cbn [mbind result_bind]. rewrite Hx. erewrite free_record by exact Hb'.
    cbn [mbind result_bind].
    destruct fuel as [| fuel]; [done |]. simpl.
    assert (b ≠ a0) by (eapply nodup_neq; eauto).
    unfold load. cbn [threads]. rewrite lookup_delete_ne by done. rewrite Hfreed. done.
  - destruct (lookup_lt_is_Some_2 l (S (S i)) Hlt) as [b Hb]. rewrite Hb.
    destruct (Hl _ _ Hb) as (nb & Hnb & _ & Hx).
    unfold pidx in Hx. rewrite decide_False in Hx by lia. simpl in Hx.
    assert (Hb' : threads w' !! b = Some nb)
      by (rewrite (Hsame (S (S i)) b) by (done || lia); done).
    destruct fuel as [| fuel]; [done |]. simpl.
    erewrite load_Some by exact Hb'.
    cbn [mbind result_bind]. rewrite Hx. erewrite free_record by exact Hb'.
    cbn [mbind result_bind].
    assert (b ≠ a0) by (eapply nodup_neq; eauto).
    rewrite IH.
    + repeat case_decide; (done || lia).
    + lia.
    + cbn [threads]. by rewrite lookup_delete_ne.
    + intros j b' Hj Hb''. cbn [threads].
      rewrite lookup_delete_ne; [apply (Hsame j); (done || lia) |].
      eapply nodup_neq; eauto. lia.
Qed.

(** The walk from the head of a non-empty ring frees one record per
    iteration for [length l] iterations and then reads the head it has
    freed. *)
Lemma cleanup_walk_ring q w (l : list loc) (fuel : nat) :
  ring q (threads w) l → l ≠ [] →
  cleanup_walk fuel w (head q) = if decide (fuel ≤ length l)%nat then Timeout else Fault.
Proof.
  intros [Hnd Hsz Hhd Hl] Hne. rewrite Hhd by done.
  destruct l as [| a0 l0]; [done |]. remember (a0 :: l0) as l eqn:El.
  assert (Ha0 : l !! 0%nat = Some a0) by (by subst l).
  assert (Hlen : (1 ≤ length l)%nat) by (subst l; simpl; lia).
  rewrite Ha0. destruct (Hl _ _ Ha0) as (n0 & Hn0 & _ & Hx).
  unfold pidx in Hx. rewrite decide_True in Hx by done.
  destruct fuel as [| fuel]; [by rewrite decide_True by lia |]. simpl.
  erewrite load_Some by exact Hn0. cbn [mbind result_bind].
  erewrite free_record by exact Hn0. cbn [mbind result_bind]. rewrite Hx.
  destruct (decide (length l = 1%nat)) as [H1 | Hmore].
  - rewrite H1. simpl. rewrite Ha0.
    destruct fuel as [| fuel]; [done |]. simpl.
    unfold load. cbn [threads]. rewrite lookup_delete_eq. done.
  - replace (pred (length l)) with (S (pred (pred (length l)))) by lia.
    rewrite (cleanup_walk_tail (threads w) l a0 Hnd Hl Ha0).
    + repeat case_decide; (done || lia).
    + lia.
    + cbn [threads]. apply lookup_delete_eq.
    + intros j b Hj Hb. cbn [threads]. apply lookup_delete_ne. eapply nodup_neq; eauto. lia.
Qed.

(** C10, as the code has it.  [cleanup_queue] completes when it is
    called on an empty ring with a null [head]: its loop does not run.
    On a non-empty ring no [next] pointer is null, so the loop never
    meets its exit condition and [cleanup_queue] never completes; but
    it does not run for ever either: after it has freed the [size]
    records it is back at [head], which it has freed, and reads it
    again, which is undefined.  Completion of the teardown path
    depends on [size == 0] and [head == NULL]. *)
Theorem cleanup_queue_needs_empty_ring (fuel : nat) w q (l : list loc) :
  thread_queue w = Some q → ring q (threads w) l →
  (l = [] → head q = None →
     (active q = None ∨ ∃ a, active q = Some a ∧ is_Some (threads w !! a)) →
     ∃ w', cleanup_queue fuel w = Ok w' ∧ thread_queue w' = None)
  ∧ (l ≠ [] →
     (∀ a, a ∈ l → ∃ n b, threads w !! a = Some n ∧ next n = Some b ∧ b ∈ l)
     ∧ cleanup_queue fuel w = (if decide (fuel ≤ length l)%nat then Timeout else Fault)
     ∧ ∀ w', cleanup_queue fuel w ≠ Ok w').
Proof.
  intros Hq Hr. split.
  - intros -> Hhd Hact. unfold cleanup_queue, the_queue. rewrite Hq.
    cbn [mbind result_bind]. rewrite Hhd.
    assert (Hw : cleanup_walk fuel w None = Ok w) by (by destruct fuel).
    rewrite Hw. cbn [mbind result_bind].
    destruct Hact as [-> | (a & -> & [na Hna])].
    + eexists. by split.
    + erewrite free_record by exact Hna. eexists. by split.
  - intros Hne.
    assert (Hc : cleanup_queue fuel w = if decide (fuel ≤ length l)%nat then Timeout else Fault).
    { unfold cleanup_queue, the_queue. rewrite Hq. cbn [mbind result_bind].
      rewrite (cleanup_walk_ring q w l fuel Hr Hne). by case_decide. }
    split_and!; [| done |].
    + intros a Ha. by eapply ring_next_not_null.
    + intros w'. rewrite Hc. by case_decide.
Qed.

Lemma cleanup_queue_needs_empty_ring_witness :
  ([20%positive] = [] → head queue_ab = None →
     (active queue_ab = None
      ∨ ∃ a, active queue_ab = Some a ∧ is_Some (threads world_ab !! a)) →
     ∃ w', cleanup_queue 5 world_ab = Ok w' ∧ thread_queue w' = None)
  ∧ ([20%positive] ≠ [] →
     (∀ a, a ∈ [20%positive] →
        ∃ n b, threads world_ab !! a = Some n ∧ next n = Some b ∧ b ∈ [20%positive])
     ∧ cleanup_queue 5 world_ab
       = (if decide (5 ≤ length [20%positive])%nat then Timeout else Fault)
     ∧ ∀ w', cleanup_queue 5 world_ab ≠ Ok w').
Proof.
  apply (cleanup_queue_needs_empty_ring 5 world_ab queue_ab [20%positive]).
  - reflexivity.
  - exact (sch_ring _ _ _ scheduler_ab).
Defined.

(** C10 as stated fails: on the ring that holds only B the loop has not
    finished after one iteration, and its second iteration does not go
    on for ever: it stops on the read of the record freed by the
    first. *)
Lemma cleanup_queue_counterexample :
  two_threads = Ok world_ab
  ∧ cleanup_queue 1 world_ab = Timeout
  ∧ cleanup_queue 2 world_ab = Fault
  ∧ cleanup_queue 2 world_ab ≠ Timeout.
Proof. split_and!; [vm_compute; reflexivity .. | by vm_compute]. Qed.

(** ** The initial thread *)

(** C9: what the code does at process start.  [system_init] allocates
    the registry and sets [size] to 0 and nothing else: [head] and
    [active] hold whatever the fresh block held, and no record is ever
    made for the initial thread.  So when the initial thread has
    created a thread and yields, [uthread_yield] writes the priority
    through an [active] that points to no record: for every content of
    the fresh block whose [active] is not, by chance, the address of
    the record created later, the call is undefined. *)
Theorem system_init_leaves_active_unset (fuel : nat) cell t junk c ms f prio prio' :
  active cell ≠ Some t →
  system_init boot (Some cell)
    = Ok (World ∅ ∅ ∅ (Some (Queue (head cell) 0 (active cell))) (Some 1))
  ∧ (w ← system_init boot (Some cell);
     '(w, _) ← uthread_create w (Mallocs (Some (t, junk)) (Some c) ms) f prio;
     uthread_yield fuel w prio') = Fault.
Proof.
  intros Hact. split; [reflexivity |].
  set (w0 := World ∅ ∅ ∅ (Some (Queue (head cell) 0 (active cell))) (Some 1)).
  change (system_init boot (Some cell)) with (Ok w0). cbn [mbind result_bind].
  assert (Hs0 : scheduler w0 (Queue (head cell) 0 (active cell)) []).
  { constructor; try done.
    - constructor; try done. apply NoDup_nil_2.
    - intros b Hb. by apply not_elem_of_nil in Hb. }
  destruct ms as [s |]; [| by rewrite uthread_create_null_stack].
  destruct (uthread_create_enqueues w0 _ [] t junk c s f prio Hs0)
    as (q' & h' & Hc & _ & Hact' & Hsz' & _ & _ & Hf); [done | done |].
  rewrite Hc. cbn [mbind result_bind]. cbn [size active] in Hact', Hsz'.
  unfold uthread_yield, sem_wait, the_queue. cbn [lock thread_queue mbind result_bind].
  rewrite bool_decide_eq_true_2 by lia. cbn [mbind result_bind thread_queue threads].
  rewrite bool_decide_eq_false_2 by lia. rewrite Hact'.
  unfold set_priority, store. destruct (active cell) as [x |]; [| done].
  rewrite Hf; [done | apply not_elem_of_nil | congruence].
Qed.

Lemma system_init_leaves_active_unset_witness :
  system_init boot (Some zeroed)
    = Ok (World ∅ ∅ ∅ (Some (Queue (head zeroed) 0 (active zeroed))) (Some 1))
  ∧ (w ← system_init boot (Some zeroed);
     '(w, _) ← uthread_create w
        (Mallocs (Some (10%positive, junk0)) (Some 11%positive) (Some 12%positive))
        100%positive 5;
     uthread_yield 1 w 5) = Fault.
Proof.
  apply (system_init_leaves_active_unset 1 zeroed 10%positive junk0 11%positive
           (Some 12%positive) 100%positive 5 5).
  done.
Defined.

(** ** Ties go to the oldest record *)

(** C2.  [add] puts the new record at the end of the list that [ring]
    speaks of and [get_priority_thread] takes one record out of it, so
    the list holds the ready records in the order they were entered.
    The record selected has a priority strictly below that of every
    record entered before it: of two records of equal priority the one
    entered later is never taken.  Scenario B run by a thread that has
    a record (A, running alone) ends with a transfer to the context of
    f, the first of the two records of priority 5.  Run by the initial
    thread, right after [system_init] on a zero-filled block, the same
    calls end in undefined behaviour inside [uthread_yield], before any
    selection: the initial thread has no record. *)
Theorem tie_break_fifo (fuel : nat) q h (l : list loc) :
  ring q h l → (length l ≤ fuel)%nat → l ≠ [] →
  (∃ (k : nat) a na q' h',
     get_priority_thread fuel q h = Ok (Some a, q', h')
     ∧ l !! k = Some a ∧ h !! a = Some na
     ∧ ring q' h' (delete k l)
     ∧ ∀ (j : nat) b nb, l !! j = Some b → h !! b = Some nb →
         priority nb = priority na → (k ≤ j)%nat)
  ∧ (w ← one_thread;
     '(w', c) ← scenario_B 2 w;
     Ok (c, active_of w', entry_of w' 21%positive))
    = Ok (Swapcontext 11%positive 21%positive, Some 20%positive, Some (AtEntry 200%positive))
  ∧ (w ← system_init boot (Some zeroed); scenario_B 2 w) = Fault.
Proof.
  intros Hr Hfuel Hne. split_and!; [| vm_compute; reflexivity ..].
  pose proof (get_priority_ring q h l fuel Hr Hfuel) as Hg.
  destruct l as [| a0 l0]; [done |].
  destruct Hg as (k & a & q' & h' & Hg & Hk & Hfm & Hr' & _).
  destruct Hfm as (a' & na & Hk' & Hna & Hmin).
  rewrite Hk in Hk'. injection Hk' as <-.
  exists k, a, na, q', h'. split_and!; try done.
  intros j b nb Hj Hb Heq. destruct (Hmin j b nb Hj Hb) as [_ Hlt].
  destruct (decide (j < k)%nat); [specialize (Hlt ltac:(done)) |]; lia.
Qed.

Lemma tie_break_fifo_witness :
  (∃ (k : nat) a na q' h',
     get_priority_thread 3 queue3 heap3 = Ok (Some a, q', h')
     ∧ ready3 !! k = Some a ∧ heap3 !! a = Some na
     ∧ ring q' h' (delete k ready3)
     ∧ ∀ (j : nat) b nb, ready3 !! j = Some b → heap3 !! b = Some nb →
         priority nb = priority na → (k ≤ j)%nat)
  ∧ (w ← one_thread;
     '(w', c) ← scenario_B 2 w;
     Ok (c, active_of w', entry_of w' 21%positive))
    = Ok (Swapcontext 11%positive 21%positive, Some 20%positive, Some (AtEntry 200%positive))
  ∧ (w ← system_init boot (Some zeroed); scenario_B 2 w) = Fault.
Proof.
  apply (tie_break_fifo 3 queue3 heap3 ready3 ring3); [simpl; lia | done].
Defined.

(** * More about the queue operations *)

(** ** The selection as a function of the priorities *)

Lemma first_min_from_spec (ps : list Z) :
  ∀ (best : Z) (bi i : nat) (pre : list Z),
    length pre = i → pre !! bi = Some best →
    (∀ (j : nat) p, pre !! j = Some p → best ≤ p ∧ ((j < bi)%nat → best < p)) →
    ∃ pk, (pre ++ ps) !! first_min_from best bi i ps = Some pk
      ∧ ∀ (j : nat) p, (pre ++ ps) !! j = Some p →
          pk ≤ p ∧ ((j < first_min_from best bi i ps)%nat → pk < p).
Proof.
  induction ps as [| p ps IH]; intros best bi i pre Hlen Hbi Hmin.
  - simpl. rewrite app_nil_r. eauto.
  - simpl. replace (pre ++ p :: ps) with ((pre ++ [p]) ++ ps) by (by rewrite <- app_assoc).
    case_bool_decide as Hlt.
    + apply IH.
      * rewrite length_app. simpl. lia.
      * subst i. by rewrite list_lookup_middle.
      * intros j x Hj. apply lookup_snoc_Some in Hj as [[Hjl Hj] | [Hjl ->]].
        -- destruct (Hmin j x Hj). split; lia.
        -- split; lia.
    + apply IH.
      * rewrite length_app. simpl. lia.
      * by apply lookup_app_l_Some.
      * intros j x Hj. apply lookup_snoc_Some in Hj as [[Hjl Hj] | [Hjl ->]].
        -- by apply Hmin.
        -- apply lookup_lt_Some in Hbi. split; lia.
Qed.

Lemma first_min_index_spec (ps : list Z) :
  ps ≠ [] →
  ∃ pk, ps !! first_min_index ps = Some pk
    ∧ ∀ (j : nat) p, ps !! j = Some p →
        pk ≤ p ∧ ((j < first_min_index ps)%nat → pk < p).
Proof.
  destruct ps as [| p ps]; [done |]. intros _. simpl.
  apply (first_min_from_spec ps p 0 1 [p]); [done | done |].
  intros [| j] x Hj; [| done]. injection Hj as <-. split; lia.
Qed.

Lemma prio_lookup h a n : h !! a = Some n → prio h a = priority n.
Proof. intros H. unfold prio. by rewrite H. Qed.

(** On a ring, the position [first_min] speaks of is the one
    [first_min_index] computes from the priorities. *)
Lemma first_min_is_index q h (l : list loc) k :
  ring q h l → first_min h l k → k = first_min_index (prio h <$> l).
Proof.
  intros Hr Hfm. destruct Hfm as (a & na & Ha & Hna & Hmin).
  assert (Hne : prio h <$> l ≠ []) by (destruct l; [done | by simpl]).
  destruct (first_min_index_spec _ Hne) as (pk & Hk' & Hmin').
  set (k' := first_min_index (prio h <$> l)) in *.
  apply list_lookup_fmap_Some in Hk' as (a' & -> & Ha').
  destruct (ring_linked _ _ _ Hr _ _ Ha') as (na' & Hna' & _).
  rewrite (prio_lookup _ _ _ Hna') in Hmin'.
  destruct (Hmin k' a' na' Ha' Hna') as [Hle Hlt].
  assert (Hk2 : (prio h <$> l) !! k = Some (priority na)).
  { rewrite list_lookup_fmap, Ha. simpl. by rewrite (prio_lookup _ _ _ Hna). }
  destruct (Hmin' k _ Hk2) as [Hle' Hlt'].
  destruct (decide (k < k')%nat); [specialize (Hlt' ltac:(done)); lia |].
  destruct (decide (k' < k)%nat); [specialize (Hlt ltac:(done)); lia |]. lia.
Qed.

Lemma same_data_prio h h' a : same_data h h' → prio h' a = prio h a.
Proof.
  intros Hs. unfold prio. specialize (Hs a).
  destruct (h !! a) as [n |], (h' !! a) as [n' |]; simpl in *; try done.
  by injection Hs as -> _ _.
Qed.

Lemma same_data_live h h' a : same_data h h' → is_Some (h !! a) → is_Some (h' !! a).
Proof.
  intros Hs [n Hn]. destruct (same_data_lookup _ _ _ _ Hs Hn) as (n' & Hn' & _). eauto.
Qed.

(** One selection, with fuel for one pass, in the terms of the list
    model: the record at position [first_min_index] is returned and
    taken out; on the empty ring a null pointer is returned. *)
Lemma get_priority_model q h (l : list loc) :
  ring q h l →
  ∃ q' h',
    get_priority_thread (fuel_for q) q h
      = Ok (l !! first_min_index (prio h <$> l), q', h')
    ∧ ring q' h' (delete (first_min_index (prio h <$> l)) l)
    ∧ same_data h h'
    ∧ (∀ b, b ∉ l → h' !! b = h !! b)
    ∧ active q' = active q
    ∧ size q' = Z.of_nat (length (delete (first_min_index (prio h <$> l)) l))
    ∧ (l ≠ [] → delete (first_min_index (prio h <$> l)) l = [] → head q' = None).
Proof.
  intros Hr. pose proof (ring_size _ _ _ Hr) as Hsz.
  assert (Hfuel : (length l ≤ fuel_for q)%nat) by (unfold fuel_for; lia).
  pose proof (get_priority_ring q h l _ Hr Hfuel) as Hg.
  destruct l as [| a0 l0].
  - exists q, h. rewrite Hg. split_and!; try done.
  - remember (a0 :: l0) as l eqn:El.
    destruct Hg as (k & a & q' & h' & Hg & Hk & Hfm & Hr' & Hnull & Hsz' & Hact & Hd & Hf).
    assert (k = first_min_index (prio h <$> l)) as <- by (by eapply first_min_is_index).
    exists q', h'. rewrite Hk. split_and!; try done.
    by apply ring_size in Hr'.
Qed.

(** ** The queue operations touch links only *)

(** X1. [add] and [get_priority_thread] write nothing but [next] and
    [prev] fields of the records of the ring (and of the record added):
    every record keeps its priority, function and context, the records
    that are neither in the ring nor the one added are left as they
    are, and [active] is not changed. *)
Theorem queue_ops_keep_data (fuel : nat) q h (l : list loc) item nd :
  ring q h l → h !! item = Some nd → item ∉ l → size q < INT_MAX →
  (length l ≤ fuel)%nat →
  (∃ q' h', add q h (Some item) = Ok (q', h')
     ∧ same_data h h' ∧ active q' = active q
     ∧ ∀ b, b ∉ l → b ≠ item → h' !! b = h !! b)
  ∧ (∃ r q' h', get_priority_thread fuel q h = Ok (r, q', h')
     ∧ same_data h h' ∧ active q' = active q
     ∧ ∀ b, b ∉ l → h' !! b = h !! b).
Proof.
  intros Hr Hit Hfresh Hmax Hfuel. split.
  - destruct (add_ring q h l item nd Hr Hit Hfresh Hmax)
      as (q' & h' & Ha & _ & Hd & Hf & Hact & _).
    exists q', h'. by split_and!.
  - pose proof (get_priority_ring q h l fuel Hr Hfuel) as Hg.
    destruct l as [| a0 l0].
    + exists None, q, h. by split_and!.
    + destruct Hg as (k & a & q' & h' & Hg & _ & _ & _ & _ & _ & Hact & Hd & Hf).
      exists (Some a), q', h'. by split_and!.
Qed.

Lemma queue_ops_keep_data_witness :
  (∃ q' h', add queue_ab (threads world_ab) (Some 10%positive) = Ok (q', h')
     ∧ same_data (threads world_ab) h' ∧ active q' = active queue_ab
     ∧ ∀ b, b ∉ [20%positive] → b ≠ 10%positive → h' !! b = threads world_ab !! b)
  ∧ (∃ r q' h', get_priority_thread 1 queue_ab (threads world_ab) = Ok (r, q', h')
     ∧ same_data (threads world_ab) h' ∧ active q' = active queue_ab
     ∧ ∀ b, b ∉ [20%positive] → h' !! b = threads world_ab !! b).
Proof.
  apply (queue_ops_keep_data 1 queue_ab (threads world_ab) [20%positive] 10%positive
           (Uthread 9 100%positive (Some 11%positive) (Some 10%positive) (Some 10%positive))).
  - exact (sch_ring _ _ _ scheduler_ab).
  - vm_compute. reflexivity.
  - intros Hin%list_elem_of_singleton. done.
  - reflexivity.
  - simpl. lia.
Defined.

(** ** The ring is a list *)

Lemma model_qops_ext pr pr' ops (l : list loc) :
  (∀ a, pr a = pr' a) → model_qops pr ops l = model_qops pr' ops l.
Proof.
  intros He. revert l. induction ops as [| [item |] ops IH]; intros l; simpl.
  - done.
  - apply IH.
  - assert (Hp : pr <$> l = pr' <$> l) by (apply list_fmap_ext; intros; apply He).
    rewrite Hp. by rewrite IH.
Qed.

Lemma valid_qops_ext pr pr' h h' ops (l : list loc) :
  (∀ a, pr a = pr' a) → (∀ a, is_Some (h !! a) → is_Some (h' !! a)) →
  valid_qops pr h ops l → valid_qops pr' h' ops l.
Proof.
  intros He Hl. revert l. induction ops as [| [item |] ops IH]; intros l; simpl.
  - done.
  - intros (Hit & Hn & Hv). split_and!; [by apply Hl | done | by apply IH].
  - assert (Hp : pr <$> l = pr' <$> l) by (apply list_fmap_ext; intros; apply He).
    rewrite Hp. apply IH.
Qed.

(** X2. The ring behaves as a list.  Any sequence of [add] and
    [get_priority_thread] calls, run on a registry that satisfies the
    ring invariant with records that are live and not yet in the ring
    when they are added, gives what the same sequence gives on the
    plain list of ready records, where [add] appends and
    [get_priority_thread] takes out the first record of smallest
    priority (a null pointer when the list is empty); the registry
    satisfies the invariant at the end and no priority, function or
    context has changed. *)
Theorem ring_refines_list (ops : list qop) q h (l : list loc) :
  ring q h l → valid_qops (prio h) h ops l →
  size q + Z.of_nat (length ops) ≤ INT_MAX →
  ∃ q' h',
    run_qops ops q h = Ok (q', h', (model_qops (prio h) ops l).2)
    ∧ ring q' h' (model_qops (prio h) ops l).1
    ∧ same_data h h'.
Proof.
  revert q h l. induction ops as [| [item |] ops IH]; intros q h l Hr Hv Hmax.
  - exists q, h. simpl. by split_and!.
  - destruct Hv as ([nd Hit] & Hfresh & Hv). simpl in Hmax.
    destruct (add_ring q h l item nd Hr Hit Hfresh) as (q1 & h1 & Ha & Hr1 & Hd & _ & _ & Hsz & _);
      [lia |].
    destruct (IH q1 h1 (l ++ [item]) Hr1) as (q' & h' & Hrun & Hr' & Hd').
    + eapply valid_qops_ext; [| | exact Hv].
      * intros a. symmetry. by apply same_data_prio.
      * intros a. by apply same_data_live.
    + lia.
    + exists q', h'. simpl. rewrite Ha. cbn [mbind result_bind].
      rewrite (model_qops_ext (prio h) (prio h1)) by (intros a; symmetry; by apply same_data_prio).
      split_and!; [done | done |]. by eapply same_data_trans.
  - simpl in Hv, Hmax.
    destruct (get_priority_model q h l Hr) as (q1 & h1 & Hg & Hr1 & Hd & _ & _ & Hsz & _).
    pose proof (ring_size _ _ _ Hr) as Hsz0.
    destruct (IH q1 h1 _ Hr1) as (q' & h' & Hrun & Hr' & Hd').
    + eapply valid_qops_ext; [| | exact Hv].
      * intros a. symmetry. by apply same_data_prio.
      * intros a. by apply same_data_live.
    + rewrite Hsz.
      pose proof (sublist_length _ _ (sublist_delete l (first_min_index (prio h <$> l)))). lia.
    + exists q', h'. simpl. rewrite Hg. cbn [mbind result_bind].
      rewrite (model_qops_ext (prio h) (prio h1)) by (intros a; symmetry; by apply same_data_prio).
      rewrite Hrun. cbn [mbind result_bind].
      destruct (model_qops (prio h1) ops _) as [l' outs]. simpl.
      split_and!; [done | done |]. by eapply same_data_trans.
Qed.

Lemma ring_refines_list_witness :
  ∃ q' h',
    run_qops [QAdd 10%positive; QGet; QGet] queue_ab (threads world_ab)
      = Ok (q', h', (model_qops (prio (threads world_ab)) [QAdd 10%positive; QGet; QGet]
                       [20%positive]).2)
    ∧ ring q' h' (model_qops (prio (threads world_ab)) [QAdd 10%positive; QGet; QGet]
                    [20%positive]).1
    ∧ same_data (threads world_ab) h'.
Proof.
  apply (ring_refines_list [QAdd 10%positive; QGet; QGet] queue_ab (threads world_ab)
           [20%positive]).
  - exact (sch_ring _ _ _ scheduler_ab).
  - cbn [valid_qops]. split_and!; [vm_compute; eauto | | done].
    intros Hin%list_elem_of_singleton. done.
  - vm_compute. by intros.
Defined.

(** ** Insert then select *)

(** Two heaps that hold the same ring with the same data hold the same
    cells for its records. *)
Lemma ring_cell_eq q h q' h' (l : list loc) b :
  ring q h l → ring q' h' l → same_data h h' → b ∈ l → h' !! b = h !! b.
Proof.
  intros Hr Hr' Hd [i Hi]%list_elem_of_lookup_1.
  destruct (ring_linked _ _ _ Hr _ _ Hi) as (n & Hn & Hp & Hx).
  destruct (ring_linked _ _ _ Hr' _ _ Hi) as (n' & Hn' & Hp' & Hx').
  destruct (same_data_context _ _ _ _ Hd Hn) as (n2 & Hn2 & Hpr & Hfn & Hcx).
  rewrite Hn' in Hn2. injection Hn2 as <-. rewrite Hn, Hn'. f_equal.
  destruct n, n'. simpl in *. congruence.
Qed.

(** X3. Insert then select is a round trip when the record inserted has
    a priority strictly below that of every ready record: the selection
    returns that record and the registry is back where it was, with the
    same ring, the same [size] and [active], the same [head] (when the
    ring is not empty), and every cell other than the record's own as
    it was before the insertion. *)
Theorem add_then_get_round_trip q h (l : list loc) item nd :
  ring q h l → h !! item = Some nd → item ∉ l → size q < INT_MAX →
  (∀ b nb, b ∈ l → h !! b = Some nb → priority nd < priority nb) →
  ∃ q1 h1 q2 h2,
    add q h (Some item) = Ok (q1, h1)
    ∧ get_priority_thread (fuel_for q1) q1 h1 = Ok (Some item, q2, h2)
    ∧ ring q2 h2 l
    ∧ size q2 = size q ∧ active q2 = active q
    ∧ (l ≠ [] → head q2 = head q)
    ∧ (l = [] → head q2 = None)
    ∧ same_data h h2
    ∧ ∀ b, b ≠ item → h2 !! b = h !! b.
Proof.
  intros Hr Hit Hfresh Hmax Hlow.
  destruct (add_ring q h l item nd Hr Hit Hfresh Hmax)
    as (q1 & h1 & Ha & Hr1 & Hd1 & Hf1 & Hact1 & Hsz1 & _).
  pose proof (ring_size _ _ _ Hr) as Hsz.
  assert (Hfuel : (length (l ++ [item]) ≤ fuel_for q1)%nat).
  { unfold fuel_for. rewrite length_app. simpl. lia. }
  pose proof (get_priority_ring q1 h1 (l ++ [item]) _ Hr1 Hfuel) as Hg.
  destruct (l ++ [item]) as [| x l'] eqn:El; [by destruct l |]. rewrite <- El in *.
  destruct Hg as (k & s & q2 & h2 & Hg & Hk & Hfm & Hr2 & Hnull & Hsz2 & Hact2 & Hd2 & Hf2).
  assert (Hk' : k = length l).
  { destruct (decide (k = length l)) as [| Hne]; [done |].
    apply lookup_lt_Some in Hk as Hklt. rewrite length_app in Hklt. simpl in Hklt.
    rewrite lookup_app_l in Hk by lia.
    destruct Hfm as (s' & ns & Hs' & Hns & Hmin).
    rewrite lookup_app_l in Hs' by lia. rewrite Hk in Hs'. injection Hs' as <-.
    assert (Hsl : s ∈ l) by (by eapply list_elem_of_lookup_2).
    destruct (ring_live _ _ _ _ Hr Hsl) as [ns0 Hns0].
    destruct (same_data_context _ _ _ _ Hd1 Hns0) as (ns1 & Hns1 & Hp1 & _).
    rewrite Hns in Hns1. injection Hns1 as <-.
    destruct (same_data_context _ _ _ _ Hd1 Hit) as (ni1 & Hni1 & Hpi1 & _).
    destruct (Hmin (length l) item ni1) as [Hle _];
      [by rewrite list_lookup_middle | done |].
    specialize (Hlow s ns0 Hsl Hns0). lia. }
  subst k. rewrite list_lookup_middle in Hk by done. injection Hk as <-.
  rewrite delete_middle, app_nil_r in Hr2, Hnull.
  assert (Hd : same_data h h2) by (by eapply same_data_trans).
  exists q1, h1, q2, h2. split_and!; try done.
  - lia.
  - congruence.
  - intros Hne. rewrite (ring_head _ _ _ Hr2 Hne). by rewrite (ring_head _ _ _ Hr Hne).
  - intros b Hb. destruct (decide (b ∈ l)) as [Hin | Hout].
    + by eapply ring_cell_eq.
    + rewrite Hf2, Hf1; [done | done | done |].
      intros [Hin | ->%list_elem_of_singleton]%elem_of_app; done.
Qed.

Example ring4 : ring queue3 heap4 ready3.
Proof.
  eapply ring_frame; [exact ring3 |]. intros b Hb. unfold heap4.
  apply lookup_insert_ne. intros <-. revert Hb. unfold ready3.
  rewrite !elem_of_cons, elem_of_nil. intuition congruence.
Qed.

Lemma add_then_get_round_trip_witness :
  ∃ q1 h1 q2 h2,
    add queue3 heap4 (Some 40%positive) = Ok (q1, h1)
    ∧ get_priority_thread (fuel_for q1) q1 h1 = Ok (Some 40%positive, q2, h2)
    ∧ ring q2 h2 ready3
    ∧ size q2 = size queue3 ∧ active q2 = active queue3
    ∧ (ready3 ≠ [] → head q2 = head queue3)
    ∧ (ready3 = [] → head q2 = None)
    ∧ same_data heap4 h2
    ∧ ∀ b, b ≠ 40%positive → h2 !! b = heap4 !! b.
Proof.
  apply (add_then_get_round_trip queue3 heap4 ready3 40%positive
           (Uthread 1 400%positive (Some 41%positive) None None) ring4).
  - apply lookup_insert_eq.
  - unfold ready3. rewrite !elem_of_cons, elem_of_nil. intuition congruence.
  - reflexivity.
  - intros b nb Hb Hnb. unfold ready3 in Hb.
    rewrite !elem_of_cons, elem_of_nil in Hb.
    destruct Hb as [-> | [-> | [-> | []]]]; vm_compute in Hnb; injection Hnb as <-;
      simpl; lia.
Defined.

Lemma delete_snoc_lt {A} (l : list A) (k : nat) x :
  (k < length l)%nat → delete k (l ++ [x]) = delete k l ++ [x].
Proof.
  revert k. induction l as [| y l IH]; intros k Hk; simpl in *; [lia |].
  destruct k as [| k]; [done |]. simpl. f_equal. apply IH. lia.
Qed.

(** X4. A record inserted with a priority that is not below that of
    some ready record does not overtake: the next selection returns the
    record it would have returned without the insertion, and the new
    record stays in the ring, last. *)
Theorem add_does_not_overtake q h (l : list loc) item nd b nb :
  ring q h l → h !! item = Some nd → item ∉ l → size q < INT_MAX →
  b ∈ l → h !! b = Some nb → priority nb ≤ priority nd →
  ∃ (k : nat) s q1 h1 q2 h2,
    l !! k = Some s ∧ first_min h l k ∧ s ≠ item
    ∧ add q h (Some item) = Ok (q1, h1)
    ∧ get_priority_thread (fuel_for q1) q1 h1 = Ok (Some s, q2, h2)
    ∧ ring q2 h2 (delete k l ++ [item])
    ∧ size q2 = size q.
Proof.
  intros Hr Hit Hfresh Hmax Hb Hnb Hle.
  pose proof (ring_size _ _ _ Hr) as Hsz.
  assert (Hne : l ≠ []) by (intros ->; by apply not_elem_of_nil in Hb).
  (* the selection without the insertion *)
  pose proof (get_priority_ring q h l (length l) Hr (le_n _)) as Hg0.
  destruct l as [| a0 l0]; [done |]. remember (a0 :: l0) as l eqn:El.
  destruct Hg0 as (k0 & s0 & _ & _ & _ & Hk0 & Hfm0 & _).
  (* the insertion and the selection after it *)
  destruct (add_ring q h l item nd Hr Hit Hfresh Hmax)
    as (q1 & h1 & Ha & Hr1 & Hd1 & Hf1 & Hact1 & Hsz1 & _).
  assert (Hfuel : (length (l ++ [item]) ≤ fuel_for q1)%nat).
  { unfold fuel_for. rewrite length_app. simpl. lia. }
  pose proof (get_priority_ring q1 h1 (l ++ [item]) _ Hr1 Hfuel) as Hg.
  destruct (l ++ [item]) as [| y0 l'] eqn:El'; [by destruct l |]. rewrite <- El' in *.
  destruct Hg as (k & s & q2 & h2 & Hg & Hk & Hfm & Hr2 & _ & Hsz2 & _).
  (* both selections are the first minimum of the longer list *)
  assert (Hfm1 : first_min h1 (l ++ [item]) k0).
  { destruct Hfm0 as (s' & ns & Hs' & Hns & Hmin).
    destruct (same_data_context _ _ _ _ Hd1 Hns) as (ns1 & Hns1 & Hp1 & _).
    exists s', ns1. split_and!; [by apply lookup_app_l_Some | done |].
    intros j x nx Hj Hx. rewrite Hp1.
    apply lookup_snoc_Some in Hj as [[Hjl Hj] | [Hjl ->]].
    - destruct (ring_live _ _ _ _ Hr (list_elem_of_lookup_2 _ _ _ Hj)) as [nx0 Hnx0].
      destruct (same_data_context _ _ _ _ Hd1 Hnx0) as (nx1 & Hnx1 & Hpx & _).
      rewrite Hx in Hnx1. injection Hnx1 as <-. rewrite Hpx. by apply (Hmin j x).
    - destruct (same_data_context _ _ _ _ Hd1 Hit) as (ni1 & Hni1 & Hpi & _).
      rewrite Hx in Hni1. injection Hni1 as <-. rewrite Hpi.
      apply list_elem_of_lookup_1 in Hb as [jb Hjb].
      destruct (Hmin jb b nb Hjb Hnb) as [Hle' _].
      apply lookup_lt_Some in Hs'. split; [lia |]. intros; lia. }
  assert (k = k0) as -> by (by eapply first_min_unique).
  apply lookup_lt_Some in Hk0 as Hlt.
  rewrite lookup_app_l in Hk by done. rewrite Hk0 in Hk. injection Hk as <-.
  rewrite delete_snoc_lt in Hr2 by done.
  exists k0, s0, q1, h1, q2, h2. split_and!; try done.
  - intros ->. apply Hfresh. by eapply list_elem_of_lookup_2.
  - lia.
Qed.

Lemma add_does_not_overtake_witness :
  ∃ (k : nat) s q1 h1 q2 h2,
    [20%positive] !! k = Some s ∧ first_min (threads world_ab) [20%positive] k
    ∧ s ≠ 10%positive
    ∧ add queue_ab (threads world_ab) (Some 10%positive) = Ok (q1, h1)
    ∧ get_priority_thread (fuel_for q1) q1 h1 = Ok (Some s, q2, h2)
    ∧ ring q2 h2 (delete k [20%positive] ++ [10%positive])
    ∧ size q2 = size queue_ab.
Proof.
  apply (add_does_not_overtake queue_ab (threads world_ab) [20%positive] 10%positive
           (Uthread 9 100%positive (Some 11%positive) (Some 10%positive) (Some 10%positive))
           20%positive
           (Uthread 5 200%positive (Some 21%positive) (Some 20%positive) (Some 20%positive))).
  - exact (sch_ring _ _ _ scheduler_ab).
  - vm_compute. reflexivity.
  - intros Hin%list_elem_of_singleton. done.
  - reflexivity.
  - by apply list_elem_of_singleton.
  - vm_compute. reflexivity.
  - simpl. lia.
Defined.

(** * More about the library calls *)

Lemma fuel_of_scheduler w q l : scheduler w q l → fuel_of w = length l.
Proof.
  intros Hs. unfold fuel_of, fuel_for. rewrite (sch_queue _ _ _ Hs).
  rewrite (ring_size _ _ _ (sch_ring _ _ _ Hs)). lia.
Qed.

(** Exit with other threads ready, whether the caller has a record or
    is the initial thread with a null [active]: what is freed is the
    caller's record, if there is one. *)
Lemma uthread_exit_hands_over (fuel : nat) w q (l : list loc) :
  scheduler w q l →
  match active q with
  | Some a => (a ∉ l) ∧ is_Some (threads w !! a)
  | None => True
  end →
  l ≠ [] → (length l ≤ fuel)%nat →
  ∃ (k : nat) s cs w' q',
    uthread_exit fuel w = Ok (w', Setcontext cs)
    ∧ l !! k = Some s ∧ first_min (threads w) l k ∧ has_context w s cs
    ∧ scheduler w' q' (delete k l)
    ∧ running w' q' (delete k l) s
    ∧ (delete k l = [] → head q' = None)
    ∧ contexts w' = contexts w
    ∧ stacks w' = stacks w
    ∧ (∀ b, active q ≠ Some b → data <$> threads w' !! b = data <$> threads w !! b)
    ∧ (∀ a, active q = Some a → threads w' !! a = None).
Proof.
  intros [Hq Hlock Hr Hctx Hint] Hact Hne Hfuel.
  pose proof (ring_size _ _ _ Hr) as Hsz.
  assert (Hpos : size q ≠ 0) by (destruct l; [done | simpl in Hsz; lia]).
  destruct w as [h cs0 ss tq lk]. cbn [threads contexts stacks thread_queue lock] in *.
  subst tq lk.
  unfold uthread_exit, sem_wait, the_queue.
  cbn [lock thread_queue threads]. rewrite bool_decide_eq_true_2 by lia.
  cbn [mbind result_bind thread_queue threads].
  rewrite bool_decide_eq_false_2 by done.
  pose proof (get_priority_ring q h l fuel Hr Hfuel) as Hg.
  destruct l as [| a0 l0]; [done |]. remember (a0 :: l0) as l eqn:El.
  destruct Hg as (k & s & q1 & h2 & Hg & Hk & Hfm & Hr2 & Hnull & Hsz1 & Hact1 & Hd12 & Hf12).
  rewrite Hg. cbn [mbind result_bind]. rewrite Hact1.
  assert (Hs : s ∈ l) by (by eapply list_elem_of_lookup_2).
  destruct (Hctx _ Hs) as (cs & ns & Hns & Hcs & [us Hus]).
  cbn [threads contexts] in Hns, Hus.
  destruct (same_data_context _ _ s _ Hd12 Hns) as (ns2 & Hns2 & _ & _ & Hcs2).
  assert (Hfree : ∀ w0, threads w0 = h2 →
            ∃ h3, free w0 (active q)
                  = Ok (World h3 (contexts w0) (stacks w0) (thread_queue w0) (lock w0))
            ∧ (∀ b, active q ≠ Some b → h3 !! b = h2 !! b)
            ∧ (∀ a, active q = Some a → h3 !! a = None)).
  { intros [h0 c0 s0 q0 l0'] Hw0. cbn [threads] in Hw0. subst h0.
    destruct (active q) as [a |] eqn:Ea.
    - destruct Hact as [Hout [na Hna]].
      erewrite free_record by (cbn [threads]; rewrite Hf12 by done; exact Hna).
      eexists. split_and!; [done | |].
      + intros b Hb. apply lookup_delete_ne. congruence.
      + intros a' [= <-]. apply lookup_delete_eq.
    - exists h2. by split_and!. }
  unfold put at 1. cbn [contexts stacks lock].
  edestruct Hfree as (h3 & Hfree' & Hkeep & Hgone); [| rewrite Hfree']; [reflexivity |].
  clear Hfree Hfree'.
  cbn [mbind result_bind]. unfold sem_post, put, context_of.
  cbn [lock mbind result_bind threads contexts stacks thread_queue].
  assert (Hsa : active q ≠ Some s).
  { intros Ea. rewrite Ea in Hact. by destruct Hact. }
  erewrite load_Some by (rewrite Hkeep by done; exact Hns2).
  cbn [mbind result_bind]. rewrite Hcs2, Hcs, Hus.
  assert (Hin : ∀ b, b ∈ l → active q ≠ Some b).
  { intros b Hb Ea. rewrite Ea in Hact. by destruct Hact. }
  eexists k, s, cs, _, (Queue (head q1) (size q1) (Some s)).
  split; [reflexivity |]. split_and!; try done.
  - exists ns. by split_and!.
  - constructor; cbn [threads contexts thread_queue lock size]; try done.
    + apply ring_active. eapply ring_frame; [done |].
      intros b Hb%list_elem_of_delete_inv. apply Hkeep. by apply Hin.
    + intros b Hb%list_elem_of_delete_inv.
      destruct (Hctx _ Hb) as (cb & nb & Hnb & Hcb & Hl).
      cbn [threads contexts] in Hnb, Hl.
      destruct (same_data_context _ _ b _ Hd12 Hnb) as (nb2 & Hnb2 & _ & _ & Hcb2).
      exists cb, nb2. cbn [threads contexts]. split_and!; [| congruence | done].
      rewrite Hkeep; [done |]. by apply Hin.
    + lia.
  - constructor; cbn [active]; try done.
    + pose proof (ring_nodup _ _ _ Hr) as Hnd.
      rewrite (delete_Permutation l k s Hk) in Hnd. by apply NoDup_cons in Hnd as [? _].
    + exists cs, ns2. cbn [threads contexts]. split_and!; [| congruence | eauto].
      by rewrite Hkeep.
  - intros b Hb. cbn [threads]. by rewrite Hkeep, Hd12.
Qed.

(** Exit with nothing ready and a null [head]: the process ends. *)
Lemma uthread_exit_ends (fuel : nat) w q :
  scheduler w q [] → head q = None →
  match active q with
  | Some a => is_Some (threads w !! a)
  | None => True
  end →
  uthread_exit fuel w
    = Ok (World (match active q with Some a => delete a (threads w) | None => threads w end)
            (contexts w) (stacks w) None None, Exits 0).
Proof.
  intros [Hq Hlock Hr Hctx Hint] Hhd Hact.
  pose proof (ring_size _ _ _ Hr) as Hsz. simpl in Hsz.
  destruct w as [h cs ss tq lk]. cbn [threads contexts stacks thread_queue lock] in *.
  subst tq lk.
  unfold uthread_exit, sem_wait, sem_post, sem_destroy, cleanup_queue, the_queue.
  cbn [lock thread_queue threads mbind result_bind].
  rewrite bool_decide_eq_true_2 by lia. cbn [mbind result_bind thread_queue].
  rewrite bool_decide_eq_true_2 by done. cbn [mbind result_bind lock thread_queue threads].
  rewrite Hhd.
  assert (Hw : ∀ w0, cleanup_walk fuel w0 None = Ok w0) by (by destruct fuel).
  rewrite Hw. cbn [mbind result_bind].
  destruct (active q) as [a |]; [| done]. destruct Hact as [na Hna].
  by erewrite free_record by exact Hna.
Qed.

(** A call whose context allocation fails returns -1 and leaves the
    registry as it was; the block of the record stays allocated. *)
Lemma uthread_create_context_fails w q (l : list loc) t junk ms f prio :
  scheduler w q l → threads w !! t = None →
  ∃ h',
    uthread_create w (Mallocs (Some (t, junk)) None ms) f prio
      = Ok (World h' (contexts w) (stacks w) (thread_queue w) (lock w), Returns (-1))
    ∧ scheduler (World h' (contexts w) (stacks w) (thread_queue w) (lock w)) q l
    ∧ (∀ b, b ≠ t → h' !! b = threads w !! b)
    ∧ is_Some (h' !! t).
Proof.
  intros [Hq Hlock Hr Hctx Hint] Ht.
  pose proof (fresh_not_ready _ _ _ _ Hr Ht) as Hfresh.
  unfold uthread_create, set_priority. cbn [m_thread m_context m_stack]. exec.
  set (h1 := <[t := with_context None _]> _).
  assert (Hf : ∀ b, b ≠ t → h1 !! b = threads w !! b).
  { intros b Hb. unfold h1. by rewrite !lookup_insert_ne by done. }
  exists h1. split_and!; [done | | done |].
  - constructor; cbn [threads contexts thread_queue lock]; try done.
    + eapply ring_frame; [done |]. intros b Hb. apply Hf. by intros ->.
    + intros b Hb. destruct (Hctx _ Hb) as (cb & nb & Hnb & Hcb & Hlive).
      exists cb, nb. cbn [threads contexts]. split_and!; try done.
      rewrite Hf; [done |]. by intros ->.
  - unfold h1. rewrite lookup_insert_eq. eauto.
Qed.

Lemma uthread_yield_nothing_ready (fuel : nat) w q prio :
  scheduler w q [] → uthread_yield fuel w prio = Ok (w, Returns (-1)).
Proof.
  intros [Hq Hlock Hr _ _]. pose proof (ring_size _ _ _ Hr) as Hsz. simpl in Hsz.
  destruct w as [h cs ss tq lk]. simpl in *. subst tq lk.
  unfold uthread_yield, sem_wait, sem_post, the_queue. simpl.
  by rewrite bool_decide_eq_true_2 by done.
Qed.

Lemma allocated_false w x :
  allocated w x = false →
  threads w !! x = None ∧ contexts w !! x = None ∧ x ∉ stacks w.
Proof.
  unfold allocated. intros H.
  apply orb_false_iff in H as [H Hs]. apply orb_false_iff in H as [Ht Hc].
  apply bool_decide_eq_false in Ht, Hc, Hs.
  split_and!; [by apply eq_None_not_Some | by apply eq_None_not_Some | done].
Qed.

Lemma data_live (h h' : heap) b :
  data <$> h' !! b = data <$> h !! b → is_Some (h !! b) → is_Some (h' !! b).
Proof. intros Hd [n Hn]. rewrite Hn in Hd. destruct (h' !! b); [eauto | done]. Qed.

Lemma bind_Ok {A B} (m : result A) (k : A → result B) b :
  m ≫= k = Ok b → ∃ a, m = Ok a ∧ k a = Ok b.
Proof. destruct m as [a | | |]; try done. intros H. by exists a. Qed.

Lemma sem_wait_Ok w w' :
  sem_wait w = Ok w' →
  threads w' = threads w ∧ contexts w' = contexts w ∧ stacks w' = stacks w
  ∧ thread_queue w' = thread_queue w.
Proof.
  unfold sem_wait. destruct (lock w); [| done]. case_bool_decide; [| done].
  by intros [= <-].
Qed.

Lemma sem_post_Ok w w' :
  sem_post w = Ok w' →
  threads w' = threads w ∧ contexts w' = contexts w ∧ stacks w' = stacks w
  ∧ thread_queue w' = thread_queue w.
Proof. unfold sem_post. destruct (lock w); [| done]. by intros [= <-]. Qed.

(** [uthread_yield] has no call of [free]: a yield that completes has
    released nothing. *)
Lemma uthread_yield_keeps fuel w prio w' ctl :
  uthread_yield fuel w prio = Ok (w', ctl) →
  (∀ x, is_Some (contexts w !! x) → is_Some (contexts w' !! x)) ∧ stacks w' = stacks w.
Proof.
  unfold uthread_yield. intros (w1 & Hw1 & H)%bind_Ok.
  apply sem_wait_Ok in Hw1 as (_ & Hc1 & Hs1 & _).
  apply bind_Ok in H as (q & _ & H). case_bool_decide.
  - apply bind_Ok in H as (w2 & Hw2 & H). injection H as <- _.
    apply sem_post_Ok in Hw2 as (_ & Hc2 & Hs2 & _). by rewrite Hc2, Hc1, Hs2, Hs1.
  - apply bind_Ok in H as (h1 & _ & H). apply bind_Ok in H as ([[thread q1] h2] & _ & H).
    apply bind_Ok in H as ([q2 h3] & _ & H). apply bind_Ok in H as (w2 & Hw2 & H).
    apply bind_Ok in H as (oucp & _ & H). apply bind_Ok in H as (ucp & _ & H).
    injection H as <- _.
    apply sem_post_Ok in Hw2 as (_ & Hc2 & Hs2 & _).
    cbn [put contexts stacks] in *. rewrite Hc2, Hc1, Hs2, Hs1. split; [| done].
    intros x Hx. by apply lookup_alter_is_Some.
Qed.

(** One call made by a thread that has a record, in a scheduler that
    is in order: the call completes; it frees no context and no stack,
    and no record other than the caller's own when it exits; and
    either the process has exited, or the scheduler is in order again.
    A record block that belongs to no thread stays where it is, out of
    the ring. *)
Lemma good_step w (l : list loc) a (c : call) :
  good w l a →
  match c with Create m _ _ => malloc_ok w m | _ => True end →
  Z.of_nat (length l) < INT_MAX →
  ∃ w' ctl,
    do_call w c = Ok (w', ctl)
    ∧ (∀ x, is_Some (contexts w !! x) → is_Some (contexts w' !! x))
    ∧ stacks w ⊆ stacks w'
    ∧ (∀ b, is_Some (threads w !! b) → b ≠ a → is_Some (threads w' !! b))
    ∧ match ctl with
      | Exits status => status = 0 ∧ thread_queue w' = None ∧ lock w' = None
      | _ => ∃ l' a', good w' l' a' ∧ (length l' ≤ length l + 1)%nat
               ∧ ∀ b, is_Some (threads w !! b) → b ∉ l → b ≠ a → (b ∉ l') ∧ b ≠ a'
      end.
Proof.
  intros Hg Hm Hmax. pose proof Hg as (q & Hs & Hrun & Hnull).
  pose proof (ring_size _ _ _ (sch_ring _ _ _ Hs)) as Hsz.
  destruct c as [m f prio | prio |]; cbn [do_call].
  - destruct Hrun as [Hact Hout (ca & na & Hna & Hca & Hlive)].
    destruct m as [[[t junk] |] mc ms]; cbn [malloc_ok m_thread m_context m_stack] in Hm.
    + destruct Hm as [Hft Hm]. apply allocated_false in Hft as (Hft & _ & _).
      assert (Hat : a ≠ t) by (intros ->; congruence).
      assert (Hbt : ∀ b, is_Some (threads w !! b) → b ≠ t).
      { intros b [nb Hb] ->. congruence. }
      destruct mc as [c |].
      * destruct Hm as (_ & _ & Hm). destruct ms as [s |]; [| done].
        destruct (uthread_create_enqueues w q l t junk c s f prio Hs) as
          (q' & h' & Hc & Hs' & Hact' & _ & _ & Hd & _); [lia | done |].
        eexists _, (Returns 0). split; [exact Hc |]. cbn [threads contexts stacks].
        split_and!.
        -- intros x Hx. apply lookup_insert_is_Some. destruct (decide (c = x)); auto.
        -- apply union_subseteq_r.
        -- intros b Hb _. by apply (data_live _ _ _ (Hd b (Hbt b Hb))).
        -- exists (l ++ [t]), a. split_and!; [| rewrite length_app; simpl; lia |].
           ++ exists q'. split_and!; [done | | by destruct l].
              constructor; [congruence | |].
              ** intros [Hin | ->%list_elem_of_singleton]%elem_of_app; done.
              ** specialize (Hd a Hat). rewrite Hna in Hd.
                 destruct (h' !! a) as [na' |] eqn:Hna'; simpl in Hd; [| done].
                 exists ca, na'. cbn [threads contexts]. split_and!; [done | |].
                 --- unfold data in Hd. simplify_eq. congruence.
                 --- apply lookup_insert_is_Some. destruct (decide (c = ca)); auto.
           ++ intros b Hb Hbl Hba. split; [| done].
              intros [Hin | ->%list_elem_of_singleton]%elem_of_app; [done |].
              by apply (Hbt t).
      * destruct (uthread_create_context_fails w q l t junk ms f prio Hs Hft)
          as (h' & Hc & Hs' & Hf & _).
        eexists _, (Returns (-1)). split; [exact Hc |]. cbn [threads contexts stacks].
        split_and!; [done | done | |].
        -- intros b Hb _. rewrite Hf; [done |]. by apply Hbt.
        -- exists l, a. split_and!; [| lia | done].
           exists q. split_and!; [done | | done].
           constructor; [done | done |]. exists ca, na. cbn [threads contexts].
           split_and!; [| done | done]. by rewrite Hf.
    + exists w, (Returns (-1)). split_and!; [done .. |].
      exists l, a. split_and!; [done | lia | done].
  - destruct (decide (l = [])) as [-> | Hne].
    + rewrite (uthread_yield_nothing_ready _ w q prio Hs).
      exists w, (Returns (-1)). split_and!; [done .. |].
      exists [], a. split_and!; [done | simpl; lia | done].
    + destruct (uthread_yield_switches (fuel_of w) w q l a prio Hs Hrun Hne)
        as (k & s & ca & cs & w' & q' & Hy & Hk & _ & _ & _ & Hs' & Hrun' & _ & (na' & Hna' & _) & Hd).
      { by rewrite (fuel_of_scheduler _ _ _ Hs). }
      destruct (uthread_yield_keeps _ _ _ _ _ Hy) as [Hcx Hst].
      exists w', (Swapcontext ca cs). split_and!; [done | done | by rewrite Hst | |].
      * intros b Hb Hba. by apply (data_live _ _ _ (Hd b Hba)).
      * exists (delete k l ++ [a]), s. split_and!.
        -- exists q'. split_and!; [done | done | by destruct (delete k l)].
        -- rewrite length_app, length_delete by eauto. simpl.
           apply lookup_lt_Some in Hk. lia.
        -- intros b Hb Hbl Hba. split.
           ++ intros [Hin%list_elem_of_delete_inv | Heq%list_elem_of_singleton]%elem_of_app;
                done.
           ++ intros ->. apply Hbl. by eapply list_elem_of_lookup_2.
  - destruct Hrun as [Hact Hout (ca & na & Hna & Hca & Hlive)].
    destruct (decide (l = [])) as [-> | Hne].
    + rewrite (uthread_exit_ends _ w q Hs); [| by apply Hnull | rewrite Hact; eauto].
      rewrite Hact. eexists _, (Exits 0). cbn [threads contexts stacks thread_queue lock].
      split_and!; try done.
      intros b Hb Hba. cbn [threads]. by rewrite lookup_delete_ne.
    + destruct (uthread_exit_hands_over (fuel_of w) w q l Hs)
        as (k & s & cs & w' & q' & He & Hk & _ & _ & Hs' & Hrun' & Hnull' & Hcx & Hst & Hd & _).
      { rewrite Hact. split; [done | eauto]. }
      { done. }
      { by rewrite (fuel_of_scheduler _ _ _ Hs). }
      exists w', (Setcontext cs). split_and!; [done | by rewrite Hcx | by rewrite Hst | |].
      * intros b Hb Hba. apply (data_live _ _ _ (Hd b ltac:(rewrite Hact; congruence)) Hb).
      * exists (delete k l), s. split_and!.
        -- by exists q'.
        -- pose proof (sublist_length _ _ (sublist_delete l k)). lia.
        -- intros b Hb Hbl Hba. split.
           ++ intros Hin%list_elem_of_delete_inv. done.
           ++ intros ->. apply Hbl. by eapply list_elem_of_lookup_2.
Qed.

(** A sequence of calls, each made by the thread running at that
    moment. *)
Lemma good_run (cs : list call) :
  ∀ w (l : list loc) a,
    good w l a → mallocs_ok cs w →
    Z.of_nat (length l) + Z.of_nat (length cs) ≤ INT_MAX →
    ∃ w' st,
      run_calls cs w = Ok (w', st)
      ∧ match st with
        | Some status => status = 0 ∧ thread_queue w' = None ∧ lock w' = None
        | None => ∃ l' a', good w' l' a'
        end
      ∧ (∀ x, is_Some (contexts w !! x) → is_Some (contexts w' !! x))
      ∧ stacks w ⊆ stacks w'
      ∧ ∀ b, is_Some (threads w !! b) → b ∉ l → b ≠ a → is_Some (threads w' !! b).
Proof.
  induction cs as [| c cs IH]; intros w l a Hg Hok Hmax.
  - exists w, None. split_and!; [done | eauto | done | done | done].
  - simpl in Hmax. destruct Hok as [Hm Hok].
    destruct (good_step w l a c Hg Hm) as (w' & ctl & Hc & Hcx & Hst & Hb & Hnext); [lia |].
    cbn [run_calls]. rewrite Hc in *. cbn [mbind result_bind].
    destruct ctl as [rv | oucp ucp | ucp | status].
    4: { destruct Hnext as (-> & Hq & Hl). exists w', (Some 0). split_and!; try done.
         intros b Hlive _ Hba. by apply Hb. }
    all: destruct Hnext as (l' & a' & Hg' & Hlen & Hout);
      destruct (IH w' l' a' Hg' Hok) as (w'' & st & Hrun & Hend & Hcx' & Hst' & Hb');
      [lia |];
      exists w'', st; split_and!;
      [done | done | by intros x Hx; apply Hcx', Hcx | by etrans |];
      intros b Hlive Hbl Hba; destruct (Hout b Hlive Hbl Hba); apply Hb'; [| done ..];
      by apply Hb.
Qed.

(** ** Any sequence of calls is safe *)


Example good_ab : good world_ab [20%positive] 10%positive.
Proof. exists queue_ab. split_and!; [exact scheduler_ab | exact running_ab | done]. Qed.


(** ** When every thread exits *)

Lemma drain_order_ext pr pr' (n : nat) (l : list loc) :
  (∀ b, b ∈ l → pr b = pr' b) → drain_order n pr l = drain_order n pr' l.
Proof.
  revert l. induction n as [| n IH]; intros l He; [done |]. simpl.
  assert (Hp : pr <$> l = pr' <$> l).
  { apply list_eq. intros i. rewrite !list_lookup_fmap.
    destruct (l !! i) as [b |] eqn:Hb; [| done]. simpl. f_equal.
    apply He. by eapply list_elem_of_lookup_2. }
  rewrite Hp. destruct (l !! _); [| done]. f_equal. apply IH.
  intros b Hb%list_elem_of_delete_inv. by apply He.
Qed.

(** Taking out the first record of smallest priority again and again
    lists the records by priority, first come first served among
    equals. *)
Lemma drain_order_by_priority pr (n : nat) (l : list loc) :
  length l = n → by_priority pr l (drain_order n pr l).
Proof.
  revert l. induction n as [| n IH]; intros l Hlen.
  - destruct l; [| done]. simpl. split_and!; [done | |]; intros i j x y _ Hi; done.
  - assert (Hne : pr <$> l ≠ []) by (destruct l; [done | by simpl]).
    destruct (first_min_index_spec _ Hne) as (pk & Hk & Hmin). simpl.
    set (k := first_min_index (pr <$> l)) in *.
    apply list_lookup_fmap_Some in Hk as (s & -> & Hs). rewrite Hs.
    assert (Hlen' : length (delete k l) = n).
    { rewrite length_delete by eauto. lia. }
    destruct (IH (delete k l) Hlen') as (Hperm & Hsort & Hstab).
    set (rest := drain_order n pr (delete k l)) in *.
    assert (Hpos : ∀ y, y ∈ rest → ∃ j' : nat, j' ≠ k ∧ l !! j' = Some y).
    { intros y Hy. rewrite Hperm in Hy. apply list_elem_of_lookup_1 in Hy as [m Hm].
      rewrite list_lookup_delete in Hm. eexists. split; [| exact Hm]. case_decide; lia. }
    assert (Hle : ∀ y, y ∈ rest → pr s ≤ pr y).
    { intros y (j' & _ & Hj')%Hpos.
      by destruct (Hmin j' (pr y) (list_lookup_fmap_Some_2 _ _ _ _ Hj')). }
    split_and!.
    + rewrite Hperm. symmetry. by apply delete_Permutation.
    + intros [| i] [| j] x y Hij Hi Hj; try lia; simpl in Hi, Hj.
      * injection Hi as <-. apply Hle. by eapply list_elem_of_lookup_2.
      * apply (Hsort i j); (done || lia).
    + intros [| i] [| j] x y Hij Hi Hj Heq; try lia; simpl in Hi, Hj.
      * injection Hi as <-.
        destruct (Hpos y (list_elem_of_lookup_2 _ _ _ Hj)) as (j' & Hjk & Hj').
        exists k, j'. split_and!; [| done | done].
        destruct (Hmin j' (pr y) (list_lookup_fmap_Some_2 _ _ _ _ Hj')) as [_ Hlt].
        destruct (decide (j' < k)%nat); [specialize (Hlt ltac:(done)); lia | lia].
      * destruct (Hstab i j x y) as (i' & j' & Hij' & Hi' & Hj'); [lia | done .. |].
        rewrite list_lookup_delete in Hi', Hj'.
        eexists _, _. split_and!; [| exact Hi' | exact Hj']. repeat case_decide; lia.
Qed.

Lemma data_prio h h' b : data <$> h' !! b = data <$> h !! b → prio h' b = prio h b.
Proof.
  intros Hd. unfold prio.
  destruct (h !! b) as [n |], (h' !! b) as [n' |]; simpl in *; try done.
  by injection Hd as -> _ _.
Qed.

Lemma exit_all_order (n : nat) :
  ∀ w (l : list loc) a, length l = n → good w l a →
    ∃ wf,
      exit_all n w = Ok (Some <$> drain_order n (prio (threads w)) l, wf, 0)
      ∧ thread_queue wf = None ∧ lock wf = None
      ∧ contexts wf = contexts w ∧ stacks wf = stacks w
      ∧ (∀ b, (b = a ∨ b ∈ l ∨ threads w !! b = None) → threads wf !! b = None)
      ∧ (∀ b, is_Some (threads w !! b) → b ≠ a → b ∉ l → is_Some (threads wf !! b)).
Proof.
  induction n as [| n IH]; intros w l a Hlen (q & Hs & Hrun & Hnull).
  - destruct l; [| done]. destruct Hrun as [Hact Hout (ca & na & Hna & _)].
    assert (He : uthread_exit (fuel_of w) w
              = Ok (World (delete a (threads w)) (contexts w) (stacks w) None None, Exits 0)).
    { rewrite (uthread_exit_ends _ w q Hs); rewrite ?Hact; eauto. }
    cbn [exit_all drain_order]. rewrite He. cbn [mbind result_bind].
    eexists. split; [reflexivity |]. cbn [thread_queue lock contexts stacks threads].
    split_and!; try done.
    + intros b [-> | [Hb | Hb]].
      * apply lookup_delete_eq.
      * by apply not_elem_of_nil in Hb.
      * rewrite lookup_delete_None. by right.
    + intros b Hb Hba _. by rewrite lookup_delete_ne.
  - assert (Hne : l ≠ []) by (by destruct l).
    destruct Hrun as [Hact Hout (ca & na & Hna & Hca & Hlive)].
    destruct (uthread_exit_hands_over (fuel_of w) w q l Hs)
      as (k & s & cs & w' & q' & He & Hk & Hfm & _ & Hs' & Hrun' & Hnull' & Hcx & Hst
          & Hdata & Hgone).
    { rewrite Hact. split; [done | eauto]. }
    { done. }
    { by rewrite (fuel_of_scheduler _ _ _ Hs). }
    assert (k = first_min_index (prio (threads w) <$> l)) as Hkeq.
    { eapply first_min_is_index; [exact (sch_ring _ _ _ Hs) | done]. }
    assert (Hlen' : length (delete k l) = n).
    { rewrite length_delete by eauto. lia. }
    destruct (IH w' (delete k l) s Hlen')
      as (wf & Hrun & Hq & Hl & Hcx' & Hst' & Hfreed & Hkept).
    { by exists q'. }
    exists wf. cbn [exit_all]. rewrite He. cbn [mbind result_bind]. rewrite Hrun.
    cbn [mbind result_bind]. split_and!; [| done | done | congruence | congruence | |].
    + do 2 f_equal. cbn [drain_order]. rewrite <- Hkeq, Hk. rewrite fmap_cons.
      unfold active_of. rewrite (sch_queue _ _ _ Hs'). simpl.
      rewrite (run_active _ _ _ _ Hrun').
      rewrite (drain_order_ext (prio (threads w')) (prio (threads w)) n (delete k l)); [done |].
      intros b Hb%list_elem_of_delete_inv.
      apply data_prio, Hdata. rewrite Hact. intros [= ->]. done.
    + intros b Hb. apply Hfreed.
      destruct (decide (b = a)) as [-> | Hba].
      { right. right. by apply Hgone. }
      destruct Hb as [-> | [Hb | Hb]]; [done | |].
      * rewrite (delete_Permutation l k s Hk) in Hb.
        apply elem_of_cons in Hb as [-> | Hb]; auto.
      * right. right. specialize (Hdata b). rewrite Hb in Hdata.
        destruct (threads w' !! b); [| done].
        exfalso. assert (Hx : active q ≠ Some b) by (rewrite Hact; congruence).
        specialize (Hdata Hx). done.
    + intros b Hb Hba Hbl. apply Hkept.
      * apply (data_live _ _ _ (Hdata b ltac:(rewrite Hact; congruence)) Hb).
      * intros ->. apply Hbl. by eapply list_elem_of_lookup_2.
      * intros Hin%list_elem_of_delete_inv. done.
Qed.

(** X6. When the running thread and then every thread that gets
    control calls [uthread_exit], the process ends with status 0 after
    [size + 1] calls.  The threads get control by priority, smallest
    number first, and in the order they entered the ring among equal
    priorities.  At the end the registry is freed, the semaphore is
    destroyed, and the records that are freed are those of the
    threads, the running one and the ready ones, and no other: a
    record block that belongs to no thread is still allocated, and so
    are every context and every stack. *)
Theorem exit_all_drains w (l : list loc) a :
  good w l a →
  ∃ order wf,
    exit_all (length l) w = Ok (Some <$> order, wf, 0)
    ∧ by_priority (prio (threads w)) l order
    ∧ thread_queue wf = None ∧ lock wf = None
    ∧ contexts wf = contexts w ∧ stacks wf = stacks w
    ∧ ∀ b, is_Some (threads wf !! b) ↔ is_Some (threads w !! b) ∧ b ∉ a :: l.
Proof.
  intros Hg.
  destruct (exit_all_order (length l) w l a eq_refl Hg)
    as (wf & Hrun & Hq & Hl & Hcx & Hst & Hfreed & Hkept).
  exists (drain_order (length l) (prio (threads w)) l), wf. split_and!; try done.
  - by apply drain_order_by_priority.
  - intros b. split.
    + intros [nb Hb]. split.
      * destruct (threads w !! b) eqn:Hw; [eauto |].
        rewrite Hfreed in Hb by auto. done.
      * intros [-> | Hin]%elem_of_cons; rewrite Hfreed in Hb by auto; done.
    + intros [Hb Hout]. apply not_elem_of_cons in Hout as [Hba Hbl]. by apply Hkept.
Qed.

Example good4 : good world4 ready3 40%positive.
Proof.
  assert (Hr : ring queue4 (threads world4) ready3).
  { apply (ring_frame queue4 heap4).
    - exact (ring_active queue3 _ _ (Some 40%positive) ring4).
    - intros b Hb. unfold ready3 in Hb. rewrite !elem_of_cons, elem_of_nil in Hb.
      destruct Hb as [-> | [-> | [-> | []]]]; by vm_compute. }
  exists queue4. split_and!; [| | done].
  - constructor; try done.
    intros b Hb. unfold ready3 in Hb. rewrite !elem_of_cons, elem_of_nil in Hb.
    destruct Hb as [-> | [-> | [-> | []]]].
    + exists 11%positive. eexists.
      split_and!; [vm_compute; reflexivity | reflexivity | vm_compute; eauto].
    + exists 21%positive. eexists.
      split_and!; [vm_compute; reflexivity | reflexivity | vm_compute; eauto].
    + exists 31%positive. eexists.
      split_and!; [vm_compute; reflexivity | reflexivity | vm_compute; eauto].
  - constructor; [done | |].
    + unfold ready3. rewrite !not_elem_of_cons. split_and!; try done. apply not_elem_of_nil.
    + exists 41%positive. eexists.
      split_and!; [vm_compute; reflexivity | reflexivity | vm_compute; eauto].
Qed.

Lemma exit_all_drains_witness :
  ∃ order wf,
    exit_all (length ready3) world4 = Ok (Some <$> order, wf, 0)
    ∧ by_priority (prio (threads world4)) ready3 order
    ∧ thread_queue wf = None ∧ lock wf = None
    ∧ contexts wf = contexts world4 ∧ stacks wf = stacks world4
    ∧ ∀ b, is_Some (threads wf !! b)
           ↔ is_Some (threads world4 !! b) ∧ b ∉ 40%positive :: ready3.
Proof.
  apply (exit_all_drains world4 ready3 40%positive good4).
Defined.

(** All threads of [world4] exit: D, then the thread of priority 2,
    then the two threads of priority 5, the older one first; the block
    50, which is no thread's record, is the only record block left. *)
Example exit_all_world4 :
  ('(order, wf, status) ← exit_all 3 world4;
   Ok (order, status, fst <$> map_to_list (threads wf)))
  = Ok ([Some 30%positive; Some 10%positive; Some 20%positive], 0, [50%positive]).
Proof. vm_compute. reflexivity. Qed.

(** ** The initial thread on a zero-filled registry *)

Lemma initial_create w (l : list loc) m f prio :
  initial w l → malloc_ok w m → Z.of_nat (length l) < INT_MAX →
  ∃ w' rv l',
    uthread_create w m f prio = Ok (w', Returns rv)
    ∧ initial w' l'
    ∧ (rv = 0 ∧ (∃ t junk c s, m = Mallocs (Some (t, junk)) (Some c) (Some s)
                               ∧ l' = l ++ [t]
                               ∧ is_Some (contexts w' !! c) ∧ s ∈ stacks w')
       ∨ rv = -1 ∧ (m_thread m = None ∨ m_context m = None) ∧ l' = l).
Proof.
  intros (q & Hs & Hact & Hnull) Hm Hmax.
  pose proof (ring_size _ _ _ (sch_ring _ _ _ Hs)) as Hsz.
  destruct m as [[[t junk] |] mc ms]; cbn [malloc_ok m_thread m_context m_stack] in *.
  - destruct Hm as [Hft Hm]. apply allocated_false in Hft as (Hft & _ & _).
    destruct mc as [c |].
    + destruct Hm as (_ & _ & Hm). destruct ms as [s |]; [| done].
      destruct (uthread_create_enqueues w q l t junk c s f prio Hs) as
        (q' & h' & Hc & Hs' & Hact' & _); [lia | done |].
      eexists _, 0, (l ++ [t]). split; [exact Hc |]. split.
      * exists q'. split_and!; [done | congruence |]. by destruct l.
      * left. split; [done |]. exists t, junk, c, s. cbn [contexts stacks].
        split_and!; [done | done | |].
        -- rewrite lookup_insert_eq. eauto.
        -- apply elem_of_union_l. by apply elem_of_singleton.
    + destruct (uthread_create_context_fails w q l t junk ms f prio Hs Hft)
        as (h' & Hc & Hs' & _).
      eexists _, (-1), l. split; [exact Hc |]. split.
      * by exists q.
      * right. auto.
  - exists w, (-1), l. split; [done |]. split.
    + by exists q.
    + right. auto.
Qed.

(** X7. The initial thread, which has no record, can use the library on
    a zero-filled registry block as far as this: it can create threads,
    each call whose three allocations succeed entering one more record
    at the end of the ring, and each call whose record or context
    allocation fails returning -1 and leaving the ring as it is; and it
    can exit.  Its exit with threads ready frees nothing, hands control
    to the first record of smallest priority and leaves a scheduler
    whose running thread has a record; its exit with nothing ready ends
    the process with status 0. *)
Theorem initial_thread_calls w (l : list loc) :
  initial w l →
  (∀ m f prio, malloc_ok w m → Z.of_nat (length l) < INT_MAX →
     ∃ w' rv l',
       uthread_create w m f prio = Ok (w', Returns rv)
       ∧ initial w' l'
       ∧ (rv = 0 ∧ (∃ t junk c s, m = Mallocs (Some (t, junk)) (Some c) (Some s)
                                  ∧ l' = l ++ [t]
                                  ∧ is_Some (contexts w' !! c) ∧ s ∈ stacks w')
          ∨ rv = -1 ∧ (m_thread m = None ∨ m_context m = None) ∧ l' = l))
  ∧ (l ≠ [] →
     ∃ (k : nat) s cs w',
       uthread_exit (fuel_of w) w = Ok (w', Setcontext cs)
       ∧ l !! k = Some s ∧ first_min (threads w) l k ∧ has_context w s cs
       ∧ good w' (delete k l) s
       ∧ contexts w' = contexts w ∧ stacks w' = stacks w
       ∧ ∀ b, data <$> threads w' !! b = data <$> threads w !! b)
  ∧ (l = [] →
     uthread_exit (fuel_of w) w
       = Ok (World (threads w) (contexts w) (stacks w) None None, Exits 0)).
Proof.
  intros Hi. split_and!.
  - intros m f prio. by apply initial_create.
  - intros Hne. destruct Hi as (q & Hs & Hact & Hnull).
    destruct (uthread_exit_hands_over (fuel_of w) w q l Hs)
      as (k & s & cs & w' & q' & He & Hk & Hfm & Hcs & Hs' & Hrun' & Hnull' & Hcx & Hst
          & Hdata & _).
    { by rewrite Hact. }
    { done. }
    { by rewrite (fuel_of_scheduler _ _ _ Hs). }
    exists k, s, cs, w'. split_and!; try done.
    + by exists q'.
    + intros b. apply Hdata. by rewrite Hact.
  - intros ->. destruct Hi as (q & Hs & Hact & Hnull).
    rewrite (uthread_exit_ends _ w q Hs); [| by apply Hnull | by rewrite Hact].
    by rewrite Hact.
Qed.

Example three_threads_world : three_threads = Ok world3.
Proof. vm_compute. reflexivity. Qed.

Example scheduler3 : scheduler world3 queue3 ready3.
Proof.
  constructor; try done.
  - exact ring3.
  - intros b Hb. unfold ready3 in Hb. rewrite !elem_of_cons, elem_of_nil in Hb.
    destruct Hb as [-> | [-> | [-> | []]]].
    + exists 11%positive. eexists.
      split_and!; [vm_compute; reflexivity | reflexivity | vm_compute; eauto].
    + exists 21%positive. eexists.
      split_and!; [vm_compute; reflexivity | reflexivity | vm_compute; eauto].
    + exists 31%positive. eexists.
      split_and!; [vm_compute; reflexivity | reflexivity | vm_compute; eauto].
Qed.

Example initial3 : initial world3 ready3.
Proof. exists queue3. split_and!; [exact scheduler3 | done | done]. Qed.

Lemma initial_thread_calls_witness :
  (∀ m f prio, malloc_ok world3 m → Z.of_nat (length ready3) < INT_MAX →
     ∃ w' rv l',
       uthread_create world3 m f prio = Ok (w', Returns rv)
       ∧ initial w' l'
       ∧ (rv = 0 ∧ (∃ t junk c s, m = Mallocs (Some (t, junk)) (Some c) (Some s)
                                  ∧ l' = ready3 ++ [t]
                                  ∧ is_Some (contexts w' !! c) ∧ s ∈ stacks w')
          ∨ rv = -1 ∧ (m_thread m = None ∨ m_context m = None) ∧ l' = ready3))
  ∧ (ready3 ≠ [] →
     ∃ (k : nat) s cs w',
       uthread_exit (fuel_of world3) world3 = Ok (w', Setcontext cs)
       ∧ ready3 !! k = Some s ∧ first_min (threads world3) ready3 k
       ∧ has_context world3 s cs
       ∧ good w' (delete k ready3) s
       ∧ contexts w' = contexts world3 ∧ stacks w' = stacks world3
       ∧ ∀ b, data <$> threads w' !! b = data <$> threads world3 !! b)
  ∧ (ready3 = [] →
     uthread_exit (fuel_of world3) world3
       = Ok (World (threads world3) (contexts world3) (stacks world3) None None, Exits 0)).
Proof.
  apply (initial_thread_calls world3 ready3 initial3).
Defined.

(** [uthread_exit] with threads ready, up to its call of [free]. *)
Lemma uthread_exit_selects (fuel : nat) w q (l : list loc) :
  scheduler w q l → l ≠ [] → (length l ≤ fuel)%nat →
  ∃ (k : nat) s cs q1 h2 ns2,
    l !! k = Some s ∧ first_min (threads w) l k ∧ has_context w s cs
    ∧ (∀ b, b ∉ l → h2 !! b = threads w !! b)
    ∧ h2 !! s = Some ns2 ∧ context ns2 = Some cs
    ∧ uthread_exit fuel w
      = (w1 ← free (World h2 (contexts w) (stacks w) (Some q1) (Some 0)) (active q);
         w2 ← sem_post (put w1 (Queue (head q1) (size q1) (Some s)) (threads w1));
         ucp ← context_of w2 (Some s);
         Ok (w2, Setcontext ucp)).
Proof.
  intros [Hq Hlock Hr Hctx Hint] Hne Hfuel.
  pose proof (ring_size _ _ _ Hr) as Hsz.
  assert (Hpos : size q ≠ 0) by (destruct l; [done | simpl in Hsz; lia]).
  destruct w as [h cs0 ss tq lk]. cbn [threads contexts stacks thread_queue lock] in *.
  subst tq lk.
  unfold uthread_exit, sem_wait, the_queue.
  cbn [lock thread_queue threads]. rewrite bool_decide_eq_true_2 by lia.
  cbn [mbind result_bind thread_queue threads].
  rewrite bool_decide_eq_false_2 by done.
  pose proof (get_priority_ring q h l fuel Hr Hfuel) as Hg.
  destruct l as [| a0 l0]; [done |]. remember (a0 :: l0) as l eqn:El.
  destruct Hg as (k & s & q1 & h2 & Hg & Hk & Hfm & _ & _ & _ & Hact1 & Hd12 & Hf12).
  rewrite Hg. cbn [mbind result_bind]. rewrite Hact1.
  assert (Hs : s ∈ l) by (by eapply list_elem_of_lookup_2).
  destruct (Hctx _ Hs) as (cs & ns & Hns & Hcs & Hlive).
  cbn [threads contexts] in Hns.
  destruct (same_data_context _ _ s _ Hd12 Hns) as (ns2 & Hns2 & _ & _ & Hcs2).
  exists k, s, cs, q1, h2, ns2. split_and!; try done.
  - by exists ns.
  - congruence.
Qed.

(** X8. The exit of the initial thread relies on the zero fill of the
    registry block, which [system_init] does not provide.  With
    threads ready, [uthread_exit] selects a record and then frees
    [active]: if [active] holds the address of no live block this is
    undefined; if it holds the address of a live [ucontext_t], that
    context, which belongs to some thread, is released, and the call
    goes on to [setcontext] (on released memory if the context was
    that of the selected thread).  With nothing ready and a [head]
    that holds the address of no live block, the teardown loop reads
    through it, which is undefined as well. *)
Theorem initial_exit_needs_zeroed_block (fuel : nat) w q (l : list loc) x :
  scheduler w q l → threads w !! x = None →
  (l ≠ [] → active q = Some x → (length l ≤ fuel)%nat →
     (allocated w x = false → uthread_exit fuel w = Fault)
     ∧ (is_Some (contexts w !! x) →
          ∃ (k : nat) s cs,
            l !! k = Some s ∧ first_min (threads w) l k ∧ has_context w s cs
            ∧ (cs = x → uthread_exit fuel w = Fault)
            ∧ (cs ≠ x → ∃ w', uthread_exit fuel w = Ok (w', Setcontext cs)
                              ∧ contexts w' = delete x (contexts w)
                              ∧ stacks w' = stacks w
                              ∧ active_of w' = Some s)))
  ∧ (l = [] → head q = Some x → allocated w x = false → uthread_exit (S fuel) w = Fault).
Proof.
  intros Hs Hx. split.
  - intros Hne Hact Hfuel.
    destruct (uthread_exit_selects fuel w q l Hs Hne Hfuel)
      as (k & s & cs & q1 & h2 & ns2 & Hk & Hfm & Hcs & Hf12 & Hns2 & Hcs2 & He).
    assert (Hx2 : h2 !! x = None).
    { rewrite Hf12; [done |]. eapply fresh_not_ready; [exact (sch_ring _ _ _ Hs) | done]. }
    rewrite He, Hact. unfold free. cbn [threads contexts stacks]. rewrite Hx2. split.
    + intros (_ & Hcx & Hst)%allocated_false. rewrite Hcx.
      by rewrite decide_False by done.
    + intros [u Hu]. rewrite Hu. cbn [mbind result_bind].
      exists k, s, cs. split_and!; [done | done | done | |].
      * intros ->. unfold sem_post, put, context_of.
        cbn [lock mbind result_bind threads contexts stacks thread_queue].
        erewrite load_Some by exact Hns2. cbn [mbind result_bind].
        by rewrite Hcs2, lookup_delete_eq.
      * intros Hne'. unfold sem_post, put, context_of.
        cbn [lock mbind result_bind threads contexts stacks thread_queue].
        erewrite load_Some by exact Hns2. cbn [mbind result_bind].
        rewrite Hcs2, lookup_delete_ne by done.
        destruct Hcs as (ns & _ & _ & [us Hus]). rewrite Hus.
        eexists. split; [reflexivity |]. by split_and!.
  - intros -> Hhd (_ & _ & _)%allocated_false.
    destruct Hs as [Hq Hlock Hr Hctx Hint].
    pose proof (ring_size _ _ _ Hr) as Hsz. simpl in Hsz.
    destruct w as [h cs0 ss tq lk]. cbn [threads contexts stacks thread_queue lock] in *.
    subst tq lk.
    unfold uthread_exit, sem_wait, sem_post, cleanup_queue, the_queue.
    cbn [lock thread_queue threads mbind result_bind].
    rewrite bool_decide_eq_true_2 by lia. cbn [mbind result_bind thread_queue].
    rewrite bool_decide_eq_true_2 by done. cbn [mbind result_bind lock thread_queue threads].
    rewrite Hhd. cbn [cleanup_walk]. unfold load. cbn [threads]. by rewrite Hx.
Qed.

Example scheduler3_junk :
  scheduler world3_junk (Queue (Some 10%positive) 3 (Some 99%positive)) ready3.
Proof.
  destruct scheduler3 as [Hq Hlock Hr Hctx Hint]. constructor; try done.
  apply (ring_active queue3 _ _ (Some 99%positive) Hr).
Qed.

Lemma initial_exit_needs_zeroed_block_witness :
  (ready3 ≠ [] → active (Queue (Some 10%positive) 3 (Some 99%positive)) = Some 99%positive →
   (length ready3 ≤ 3)%nat →
     (allocated world3_junk 99%positive = false → uthread_exit 3 world3_junk = Fault)
     ∧ (is_Some (contexts world3_junk !! 99%positive) →
          ∃ (k : nat) s cs,
            ready3 !! k = Some s ∧ first_min (threads world3_junk) ready3 k
            ∧ has_context world3_junk s cs
            ∧ (cs = 99%positive → uthread_exit 3 world3_junk = Fault)
            ∧ (cs ≠ 99%positive →
               ∃ w', uthread_exit 3 world3_junk = Ok (w', Setcontext cs)
                     ∧ contexts w' = delete 99%positive (contexts world3_junk)
                     ∧ stacks w' = stacks world3_junk
                     ∧ active_of w' = Some s)))
  ∧ (ready3 = [] → head (Queue (Some 10%positive) 3 (Some 99%positive)) = Some 99%positive →
     allocated world3_junk 99%positive = false → uthread_exit 4 world3_junk = Fault).
Proof.
  apply (initial_exit_needs_zeroed_block 3 world3_junk _ ready3 99%positive scheduler3_junk).
  vm_compute. reflexivity.
Defined.

(** The exit of the initial thread from [world3] with a stale
    [active]: with 99 in it the call is undefined; with 21 in it the
    call hands control to the thread of priority 2 after it has freed
    the context of the second thread, whose record still points to
    it. *)
Example initial_exit_stale_active :
  uthread_exit 3 world3_junk = Fault
  ∧ ('(w', c) ← uthread_exit 3 world3_alias;
     Ok (c, active_of w', contexts w' !! 21%positive,
         context <$> threads w' !! 20%positive))
    = Ok (Setcontext 31%positive, Some 30%positive, None, Some (Some 21%positive)).
Proof. split; vm_compute; reflexivity. Qed.

(** ** Contexts and stacks are never given back *)

(** X9. Threads that have a record never free a context or a stack.
    From a scheduler in order whose running thread has a record,
    whatever sequence of [uthread_create], [uthread_yield] and
    [uthread_exit] calls is made (with [malloc] results as in
    [malloc_ok] and [size] below [INT_MAX]), every [ucontext_t] block
    and every stack that was allocated at the start is still allocated
    at the end, the exit of the process included: the only blocks the
    library gives back are records and the registry. *)
Theorem contexts_never_freed (cs : list call) w (l : list loc) a :
  good w l a → mallocs_ok cs w →
  Z.of_nat (length l) + Z.of_nat (length cs) ≤ INT_MAX →
  ∃ w' st,
    run_calls cs w = Ok (w', st)
    ∧ (∀ x, is_Some (contexts w !! x) → is_Some (contexts w' !! x))
    ∧ stacks w ⊆ stacks w'.
Proof.
  intros Hg Hok Hmax.
  destruct (good_run cs w l a Hg Hok Hmax) as (w' & st & Hrun & _ & Hcx & Hst & _).
  by exists w', st.
Qed.

Lemma contexts_never_freed_witness :
  ∃ w' st,
    run_calls calls_ab world_ab = Ok (w', st)
    ∧ (∀ x, is_Some (contexts world_ab !! x) → is_Some (contexts w' !! x))
    ∧ stacks world_ab ⊆ stacks w'.
Proof.
  apply (contexts_never_freed calls_ab world_ab [20%positive] 10%positive good_ab).
  - vm_compute. repeat split; discriminate.
  - vm_compute. by intros.
Defined.

(** The run of [calls_ab]: the three threads have exited and the
    process has ended; their three contexts and three stacks are still
    allocated. *)
Example calls_ab_leak :
  ('(w', st) ← run_calls calls_ab world_ab;
   Ok (st, threads w', dom (contexts w'), stacks w'))
  = Ok (Some 0, ∅, list_to_set [11%positive; 21%positive; 31%positive],
        list_to_set [12%positive; 22%positive; 32%positive]).
Proof. vm_compute. reflexivity. Qed.

(** ** The record that a failed call leaves behind *)

(** X10. The error path of [uthread_create] leaks the record for good.
    When the context allocation fails the call returns -1 without
    freeing the block it has allocated for the record; nothing points
    to that block, and whatever threads with records call afterwards
    (with [malloc] results as in [malloc_ok]), up to and including the
    exit of the process, the block is never freed. *)
Theorem leaked_record_stays w (l : list loc) a t junk ms f prio :
  good w l a → threads w !! t = None →
  ∃ w1,
    uthread_create w (Mallocs (Some (t, junk)) None ms) f prio = Ok (w1, Returns (-1))
    ∧ is_Some (threads w1 !! t)
    ∧ good w1 l a ∧ (t ∉ l) ∧ t ≠ a
    ∧ ∀ cs, mallocs_ok cs w1 →
        Z.of_nat (length l) + Z.of_nat (length cs) ≤ INT_MAX →
        ∃ w' st, run_calls cs w1 = Ok (w', st) ∧ is_Some (threads w' !! t).
Proof.
  intros (q & Hs & [Hact Hout (ca & na & Hna & Hca & Hlive)] & Hnull) Ht.
  destruct (uthread_create_context_fails w q l t junk ms f prio Hs Ht)
    as (h' & Hc & Hs' & Hf & Hlive').
  assert (Hta : t ≠ a) by (intros ->; congruence).
  assert (Htl : t ∉ l) by (eapply fresh_not_ready; [exact (sch_ring _ _ _ Hs) | done]).
  assert (Hg1 : good (World h' (contexts w) (stacks w) (thread_queue w) (lock w)) l a).
  { exists q. split_and!; [done | | done]. constructor; [done | done |].
    exists ca, na. cbn [threads contexts]. split_and!; [| done | done]. by rewrite Hf. }
  eexists. split_and!; [exact Hc | done | done | done | done |].
  intros cs Hok Hmax.
  destruct (good_run cs _ l a Hg1 Hok Hmax) as (w' & st & Hrun & _ & _ & _ & Hkept).
  exists w', st. split; [done |]. by apply Hkept.
Qed.

Lemma leaked_record_stays_witness :
  ∃ w1,
    uthread_create world_ab (Mallocs (Some (40%positive, junk0)) None None) 400%positive 3
      = Ok (w1, Returns (-1))
    ∧ is_Some (threads w1 !! 40%positive)
    ∧ good w1 [20%positive] 10%positive ∧ (40%positive ∉ [20%positive])
    ∧ 40%positive ≠ 10%positive
    ∧ ∀ cs, mallocs_ok cs w1 →
        Z.of_nat (length [20%positive]) + Z.of_nat (length cs) ≤ INT_MAX →
        ∃ w' st, run_calls cs w1 = Ok (w', st) ∧ is_Some (threads w' !! 40%positive).
Proof.
  apply (leaked_record_stays world_ab [20%positive] 10%positive 40%positive junk0 None
           400%positive 3 good_ab).
  vm_compute. reflexivity.
Defined.

(** ** Round robin *)

(** X11. When the oldest ready record has a priority that no other
    ready record beats (in particular when all ready records have the
    same priority), a yield is a rotation: control goes to the oldest
    ready record and the caller takes the last place in the ring, with
    the priority it asked for. *)
Theorem yield_round_robin (fuel : nat) w q s (rest : list loc) a p :
  scheduler w q (s :: rest) → running w q (s :: rest) a →
  (∀ b, b ∈ rest → prio (threads w) s ≤ prio (threads w) b) →
  (length (s :: rest) ≤ fuel)%nat →
  ∃ ca cs w' q',
    uthread_yield fuel w p = Ok (w', Swapcontext ca cs)
    ∧ has_context w a ca ∧ has_context w s cs
    ∧ scheduler w' q' (rest ++ [a])
    ∧ running w' q' (rest ++ [a]) s
    ∧ priority_of w' a = Some p.
Proof.
  intros Hs Hrun Hle Hfuel.
  destruct (uthread_yield_switches fuel w q (s :: rest) a p Hs Hrun) as
    (k & s' & ca & cs & w' & q' & Hy & Hk & Hfm & Hca & Hcs & Hs' & Hrun' & _ & Hp & _);
    [done | done |].
  assert (Hfm0 : first_min (threads w) (s :: rest) 0).
  { destruct (ring_live _ _ _ s (sch_ring _ _ _ Hs)) as [ns Hns]; [apply list_elem_of_here |].
    exists s, ns. split_and!; [done | done |].
    intros [| j] b nb Hj Hb; simpl in Hj.
    - injection Hj as <-. rewrite Hns in Hb. injection Hb as <-. split; lia.
    - specialize (Hle b (list_elem_of_lookup_2 _ _ _ Hj)).
      rewrite (prio_lookup _ _ _ Hns), (prio_lookup _ _ _ Hb) in Hle. split; lia. }
  assert (k = 0%nat) as -> by (by eapply first_min_unique).
  injection Hk as <-. simpl in Hs', Hrun'.
  exists ca, cs, w', q'. split_and!; try done.
  destruct Hp as (na & Hna & Hpna). unfold priority_of. by rewrite Hna, <- Hpna.
Qed.

Example two_ready_world : two_ready = Ok world_fg.
Proof. vm_compute. reflexivity. Qed.

Example scheduler_fg : scheduler world_fg queue_fg [20%positive; 30%positive].
Proof.
  constructor; try done.
  - constructor; try done.
    + apply NoDup_ListNoDup. repeat constructor; simpl; intuition congruence.
    + intros [| [| i]] a Hi; [| | done]; injection Hi as <-;
        eexists; (split; [by vm_compute |]); done.
  - intros b Hb. rewrite !elem_of_cons, elem_of_nil in Hb.
    destruct Hb as [-> | [-> | []]].
    + exists 21%positive. eexists.
      split_and!; [vm_compute; reflexivity | reflexivity | vm_compute; eauto].
    + exists 31%positive. eexists.
      split_and!; [vm_compute; reflexivity | reflexivity | vm_compute; eauto].
Qed.

Example running_fg : running world_fg queue_fg [20%positive; 30%positive] 10%positive.
Proof.
  constructor; try done.
  - rewrite !not_elem_of_cons. split_and!; try done. apply not_elem_of_nil.
  - exists 11%positive. eexists.
    split_and!; [vm_compute; reflexivity | reflexivity | vm_compute; eauto].
Qed.

Lemma yield_round_robin_witness :
  ∃ ca cs w' q',
    uthread_yield 2 world_fg 5 = Ok (w', Swapcontext ca cs)
    ∧ has_context world_fg 10%positive ca ∧ has_context world_fg 20%positive cs
    ∧ scheduler w' q' ([30%positive] ++ [10%positive])
    ∧ running w' q' ([30%positive] ++ [10%positive]) 20%positive
    ∧ priority_of w' 10%positive = Some 5.
Proof.
  apply (yield_round_robin 2 world_fg queue_fg 20%positive [30%positive] 10%positive 5
           scheduler_fg running_fg).
  - intros b ->%list_elem_of_singleton. by vm_compute.
  - simpl. lia.
Defined.

(** ** The test program *)

(** X12. The test program, run with an allocator that never fails and
    hands out fresh blocks, whatever the fresh blocks hold (the
    registry block with a null [active]): the process exits with
    status 0 after eleven threads have printed their three lines each,
    in pairs; every [uthread_t] and the registry have been freed and
    the guard destroyed, and the eleven contexts and the eleven stacks
    are still allocated. *)
Theorem test_program_run (hd : ptr) (sz : Z) (junk : nat → uthread_t) :
  ∃ d,
    main (bump junk) 40 (Some (Queue hd sz None)) = Ok (d, 0)
    ∧ stdout d = test_output
    ∧ n_threads d = 10 ∧ myid d = 11 ∧ created d = 11%nat
    ∧ threads (mem d) = ∅
    ∧ thread_queue (mem d) = None
    ∧ lock (mem d) = None
    ∧ dom (contexts (mem d)) = list_to_set (bump_contexts 11)
    ∧ stacks (mem d) = list_to_set (bump_stacks 11).
Proof.
  eexists. split; [vm_compute; reflexivity |].
  split_and!; vm_compute; reflexivity.
Qed.
